(** * Seven Gates cellular automaton: a shallow embedding of
      [python/seven_gates.py] and the properties of its core.

    Python integers are unbounded, so they are modelled as [Z]; Python's
    [%] is floored (the result takes the sign of the divisor), which is
    exactly [Z.modulo], except that a zero divisor raises.  Lists are
    [list], strings are [string], and every operation that can raise is
    a computation in the [result] monad below. *)

From Stdlib Require Import ZArith String Ascii List Bool Lia DecimalString.
Import ListNotations.

#[local] Open Scope Z_scope.

(** ** Exceptions and the error monad *)

Inductive exn : Type :=
| ZeroDivisionError
| IndexError.

Inductive result (A : Type) : Type :=
| Ok (a : A)
| Raise (e : exn).

Arguments Ok {A} a.
Arguments Raise {A} e.

Definition bind {A B : Type} (m : result A) (k : A -> result B) : result B :=
  match m with
  | Ok a => k a
  | Raise e => Raise e
  end.

Notation "x <- m ;; k" := (bind m (fun x => k))
  (at level 61, m at next level, right associativity).
Notation "' p <- m ;; k" := (bind m (fun x => let p := x in k))
  (at level 61, p pattern, m at next level, right associativity).

(** [for x in xs: out.append(f(x))], the list-building loop: the bodies
    run left to right and the first exception leaves the loop. *)
Fixpoint mapM {A B : Type} (f : A -> result B) (xs : list A) : result (list B) :=
  match xs with
  | [] => Ok []
  | x :: xs' => y <- f x ;; ys <- mapM f xs' ;; Ok (y :: ys)
  end.

(** [for x in xs: state = body(x, state)], the state-threading loop. *)
Fixpoint for_loop {S : Type} (xs : list Z) (body : Z -> S -> result S) (s : S)
  : result S :=
  match xs with
  | [] => Ok s
  | x :: xs' => s' <- body x s ;; for_loop xs' body s'
  end.

(** ** Python primitives *)

(** [a % b] on integers. *)
Definition py_mod (a b : Z) : result Z :=
  if b =? 0 then Raise ZeroDivisionError else Ok (a mod b).

(** [range(n)]: empty when [n <= 0]. *)
Definition range (n : Z) : list Z := map Z.of_nat (seq 0 (Z.to_nat n)).

(** The index normalisation shared by [list.__getitem__] and
    [str.__getitem__]: a negative index counts from the end, and what is
    still outside [0, len) raises [IndexError]. *)
Definition normalise_index (len i : Z) : result nat :=
  let j := if i <? 0 then i + len else i in
  if (j <? 0) || (len <=? j) then Raise IndexError else Ok (Z.to_nat j).

(** [l[i]] on a list. *)
Definition list_getitem {A : Type} (l : list A) (i : Z) : result A :=
  j <- normalise_index (Z.of_nat (length l)) i ;;
  match nth_error l j with
  | Some x => Ok x
  | None => Raise IndexError
  end.

(** [s[i]] on a string: a string of length one. *)
Definition str_getitem (s : string) (i : Z) : result string :=
  j <- normalise_index (Z.of_nat (String.length s)) i ;;
  match String.get j s with
  | Some c => Ok (String c EmptyString)
  | None => Raise IndexError
  end.

(** ** Module constants *)

Definition STATE_RANGE : Z := 7.
Definition ACTIVE_THRESHOLD : Z := 4.
Definition PALETTE : string := " .:=*#@".

Definition newline : string := String (ascii_of_nat 10) EmptyString.

(** ** The automaton *)

Definition _wrap (value max_value : Z) : result Z := py_mod value max_value.

Record AutomatonState : Type := mkState {
  width : Z;
  height : Z;
  cells : list (list Z)
}.

Definition DELTAS : list (Z * Z) := [(-1, 0); (1, 0); (0, -1); (0, 1)].

(** [neighbor_coords] is a generator: each element is computed when the
    consumer asks for it, and may raise at that moment.  It is the list
    of the pending computations, in the order of emission. *)
Definition neighbor_coords (self : AutomatonState) (row col : Z)
  : list (result (Z * Z)) :=
  map (fun '(delta_row, delta_col) =>
         r <- _wrap (row + delta_row) (height self) ;;
         c <- _wrap (col + delta_col) (width self) ;;
         Ok (r, c))
      DELTAS.

(** [self.cells[r][c]]. *)
Definition cell_at (self : AutomatonState) (r c : Z) : result Z :=
  line <- list_getitem (cells self) r ;;
  list_getitem line c.

(** [sum(1 for r, c in gen if self.cells[r][c] >= ACTIVE_THRESHOLD)]:
    the generator is pulled one element at a time, the filter is
    evaluated on it, and the ones are added up from 0. *)
Fixpoint active_count (self : AutomatonState) (gen : list (result (Z * Z)))
  (acc : Z) : result Z :=
  match gen with
  | [] => Ok acc
  | y :: gen' =>
      '(r, c) <- y ;;
      v <- cell_at self r c ;;
      active_count self gen' (if ACTIVE_THRESHOLD <=? v then acc + 1 else acc)
  end.

(** The three-way branch of [step] (lines 54-59) on the current value
    and the number of active neighbours. *)
Definition next_state (current active_neighbors : Z) : result Z :=
  if 2 <=? active_neighbors then py_mod (current + 1) STATE_RANGE
  else if active_neighbors =? 0 then py_mod (current - 1) STATE_RANGE
  else Ok current.

(** The body of the inner loop of [step] for one coordinate. *)
Definition next_cell (self : AutomatonState) (row col : Z) : result Z :=
  current <- cell_at self row col ;;
  active_neighbors <- active_count self (neighbor_coords self row col) 0 ;;
  next_state current active_neighbors.

Definition step (self : AutomatonState) : result AutomatonState :=
  next_cells <-
    mapM (fun row => mapM (fun col => next_cell self row col)
                          (range (width self)))
         (range (height self)) ;;
  Ok (mkState (width self) (height self) next_cells).

Definition render (self : AutomatonState) : result string :=
  lines <-
    mapM (fun row =>
            chars <- mapM (fun state => str_getitem PALETTE state) row ;;
            Ok (String.concat "" chars))
         (cells self) ;;
  Ok (String.concat newline lines).

Definition simulate (initial : AutomatonState) (steps : Z)
  : result AutomatonState :=
  for_loop (range steps) (fun _ state => step state) initial.

(** ** Well-formed grids and the vocabulary of the properties *)

(** A value is one of the seven energy bands. *)
Definition in_band (v : Z) : Prop := 0 <= v < STATE_RANGE.

Definition cells_in_range (g : AutomatonState) : Prop :=
  Forall (Forall in_band) (cells g).

(** The shape of a grid: positive dimensions, [height] rows of [width]
    columns each. *)
Record rectangular (g : AutomatonState) : Prop := {
  rect_width : 0 < width g;
  rect_height : 0 < height g;
  rect_rows : Z.of_nat (length (cells g)) = height g;
  rect_cols : Forall (fun line => Z.of_nat (length line) = width g) (cells g)
}.

Definition well_formed (g : AutomatonState) : Prop :=
  rectangular g /\ cells_in_range g.

(** A coordinate of the grid. *)
Definition in_grid (g : AutomatonState) (r c : Z) : Prop :=
  0 <= r < height g /\ 0 <= c < width g.

(** An index that a list accepts without counting from the end. *)
Definition in_bounds {A : Type} (l : list A) (i : Z) : Prop :=
  0 <= i < Z.of_nat (length l).

(** The [n]-fold sequential application of [step], each output being the
    next input: what [simulate] is specified to compute. *)
Fixpoint step_n (n : nat) (g : AutomatonState) : result AutomatonState :=
  match n with
  | O => Ok g
  | S k => g' <- step g ;; step_n k g'
  end.

(** The number of values at or above the activity threshold. *)
Definition count_active_values (vs : list Z) : Z :=
  Z.of_nat (length (filter (fun v => ACTIVE_THRESHOLD <=? v) vs)).

(** What the generator expression of [step] reads: the coordinate that
    the generator yields and the value found there. *)
Definition yields_value (g : AutomatonState) (y : result (Z * Z)) (v : Z)
  : Prop :=
  exists r c, y = Ok (r, c) /\ cell_at g r c = Ok v.

(** The rows that [step] builds: row [row] of the output holds, at
    column [col], the result of the loop body at [(row, col)]. *)
Definition stepped_cells (g : AutomatonState) (next_cells : list (list Z))
  : Prop :=
  Forall2 (fun row line =>
             Forall2 (fun col v => next_cell g row col = Ok v)
                     (range (width g)) line)
          (range (height g)) next_cells.

(** A read [self.cells[r][c]] that stays inside the lists: [r] is a
    position of [cells] and [c] a position of the row found there. *)
Definition read_in_bounds (g : AutomatonState) (r c : Z) : Prop :=
  in_bounds (cells g) r /\
  exists line, nth_error (cells g) (Z.to_nat r) = Some line /\ in_bounds line c.

(** Two grids hold the same value at a coordinate. *)
Definition agree_at (g1 g2 : AutomatonState) (r c : Z) : Prop :=
  cell_at g1 r c = cell_at g2 r c.

(** [s.split("\n")]: the pieces between the newlines; a trailing newline
    leaves an empty last piece. *)
Fixpoint split_lines (s : string) : list string :=
  match s with
  | EmptyString => [EmptyString]
  | String c s' =>
      if Ascii.eqb c (ascii_of_nat 10) then EmptyString :: split_lines s'
      else match split_lines s' with
           | [] => [String c EmptyString]
           | l :: ls => String c l :: ls
           end
  end.

(** No character of the string is a newline. *)
Fixpoint newline_free (s : string) : Prop :=
  match s with
  | EmptyString => True
  | String c s' => c <> ascii_of_nat 10 /\ newline_free s'
  end.

(** What [render] makes of one row: as many characters as the row has
    values, none a newline, the one at position [i] being the palette
    character of the value at position [i]. *)
Definition renders_row (row : list Z) (line : string) : Prop :=
  String.length line = length row /\
  newline_free line /\
  forall i v, nth_error row i = Some v ->
              String.get i line = String.get (Z.to_nat v) PALETTE.

(** The test grids of the repository. *)
Definition single_cell : AutomatonState := mkState 1 1 [[4]].
Definition palette_row : AutomatonState := mkState 3 1 [[0; 3; 6]].
Definition sample_grid : AutomatonState :=
  mkState 3 2 [[0; 5; 2]; [6; 1; 4]].

(** ** The random source and the random grid *)

(** [random.Random] belongs to Python's standard library.  The module
    uses two things of it: the constructor from a seed ([None] seeds from
    the operating system; [Random None] is then the state that one run
    obtained) and [randrange], which returns a draw and advances the
    generator.  [randrange n] is only called with [n = STATE_RANGE]. *)
Record Rng : Type := mkRng {
  rng_state : Type;
  Random : option Z -> rng_state;
  randrange : Z -> rng_state -> Z * rng_state
}.

(** The documented contract of [randrange n] for a positive [n]. *)
Definition rng_contract (R : Rng) : Prop :=
  forall n s, 0 < n -> 0 <= fst (randrange R n s) < n.

(** [[draw() for _ in xs]] with the generator threaded through. *)
Fixpoint draw_each {S A : Type} (xs : list Z) (draw : S -> A * S) (s : S)
  : list A * S :=
  match xs with
  | [] => ([], s)
  | _ :: xs' =>
      let (a, s1) := draw s in
      let (rest, s2) := draw_each xs' draw s1 in
      (a :: rest, s2)
  end.

(** [AutomatonState.random]. *)
Definition random (R : Rng) (width height : Z) (seed : option Z)
  : AutomatonState :=
  let rng := Random R seed in
  let (cells, _) :=
    draw_each (range height)
              (fun s => draw_each (range width) (randrange R STATE_RANGE) s)
              rng in
  mkState width height cells.

(** The first [n] draws of [randrange STATE_RANGE] from a state. *)
Fixpoint draws (R : Rng) (n : nat) (s : rng_state R) : list Z :=
  match n with
  | O => []
  | S k => let (v, s1) := randrange R STATE_RANGE s in v :: draws R k s1
  end.

(** A small linear congruential generator, to instantiate [Rng]. *)
Definition lcg : Rng :=
  mkRng Z
        (fun seed => match seed with Some n => n | None => 0 end)
        (fun n s => let s1 := (1103515245 * s + 12345) mod 2147483648 in
                    (s1 mod n, s1)).

(** ** The command line driver *)

(** The namespace that [_parse_args] returns. *)
Record Namespace : Type := mkArgs {
  arg_width : Z;
  arg_height : Z;
  arg_steps : Z;
  arg_seed : Z;
  arg_frames : bool
}.

(** [range(start, stop)]. *)
Definition range_from (start stop : Z) : list Z :=
  map (fun k => start + Z.of_nat k) (seq 0 (Z.to_nat (stop - start))).

(** [str(n)] for an integer, as an f-string formats it. *)
Definition str_of_int (n : Z) : string :=
  NilZero.string_of_int (Z.to_int n).

(** What a run leaves on standard output, one string per call of
    [print], and how it ended. *)
Inductive outcome : Type :=
| Finished (out : list string)
| Crashed (out : list string) (e : exn).

(** The text of [print(f"\nStep {step_index}:\n{state.render()}")]. *)
Definition frame_text (step_index : Z) (text : string) : string :=
  (newline ++ "Step " ++ str_of_int step_index ++ ":" ++ newline ++ text)%string.

(** The loop of the [--frames] branch of [_run_cli]. *)
Fixpoint frames_loop (indices : list Z) (state : AutomatonState)
  (out : list string) : outcome :=
  match indices with
  | [] => Finished out
  | step_index :: rest =>
      match step state with
      | Raise e => Crashed out e
      | Ok state' =>
          match render state' with
          | Raise e => Crashed out e
          | Ok text =>
              frames_loop rest state' (out ++ [frame_text step_index text])
          end
      end
  end.

Definition _run_cli (R : Rng) (args : Namespace) : outcome :=
  let state :=
    random R (arg_width args) (arg_height args) (Some (arg_seed args)) in
  if arg_frames args then
    match render state with
    | Raise e => Crashed [] e
    | Ok text =>
        frames_loop (range_from 1 (arg_steps args + 1)) state
                    [("Initial state:" ++ newline ++ text)%string]
    end
  else
    match simulate state (arg_steps args) with
    | Raise e => Crashed [] e
    | Ok final_state =>
        match render final_state with
        | Raise e => Crashed [] e
        | Ok text => Finished [text]
        end
    end.

(** ** More vocabulary *)

(** The cells hold at least the [height] by [width] block that [step]
    reads. *)
Definition covers (g : AutomatonState) : Prop :=
  height g <= Z.of_nat (length (cells g)) /\
  forall r line,
    0 <= r < height g ->
    nth_error (cells g) (Z.to_nat r) = Some line ->
    width g <= Z.of_nat (length line).

(** The grid whose cells all hold [v]. *)
Definition uniform (w h v : Z) : AutomatonState :=
  mkState w h (repeat (repeat v (Z.to_nat w)) (Z.to_nat h)).

(** A value that indexes the palette, from the front or from the end. *)
Definition palette_index (v : Z) : Prop :=
  - Z.of_nat (String.length PALETTE) <= v < Z.of_nat (String.length PALETTE).

(** The grid with every value reduced to its band modulo [STATE_RANGE]. *)
Definition fold_bands (g : AutomatonState) : AutomatonState :=
  mkState (width g) (height g)
          (map (map (fun v => v mod STATE_RANGE)) (cells g)).

(** As many rows as [range(height)] has elements, as many columns as
    [range(width)] has: the shape of the grids that [random] and [step]
    build, also for dimensions that are not positive. *)
Definition shaped (g : AutomatonState) : Prop :=
  length (cells g) = Z.to_nat (height g) /\
  Forall (fun line => length line = Z.to_nat (width g)) (cells g).

(** ** Checks against the repository's tests *)

Example test_wrapped_neighbors_influence_single_cell :
  step single_cell = Ok (mkState 1 1 [[5]]).
Proof. reflexivity. Qed.

Example test_render_respects_palette_ordering :
  render palette_row = Ok " =@"%string.
Proof. reflexivity. Qed.

(** ** The error monad and the loops *)

Lemma bind_Ok_inv {A B : Type} (m : result A) (k : A -> result B) (b : B) :
  bind m k = Ok b -> exists a, m = Ok a /\ k a = Ok b.
Proof.
  destruct m as [a | e]; simpl; intros H.
  - exists a. split; [reflexivity | exact H].
  - discriminate H.
Qed.

Lemma mapM_Ok_Forall2 {A B : Type} (f : A -> result B) (xs : list A) :
  forall ys, mapM f xs = Ok ys <-> Forall2 (fun x y => f x = Ok y) xs ys.
Proof.
  induction xs as [| x xs IH]; intros ys; simpl.
  - split; intros H.
    + injection H as <-. constructor.
    + inversion H. reflexivity.
  - split; intros H.
    + apply bind_Ok_inv in H as (y & Hy & H).
      apply bind_Ok_inv in H as (zs & Hzs & H).
      injection H as <-. constructor; [exact Hy | now apply IH].
    + inversion H as [| ? y ? zs Hy Hzs]; subst.
      rewrite Hy. simpl. apply IH in Hzs. rewrite Hzs. reflexivity.
Qed.

Lemma mapM_total {A B : Type} (f : A -> result B) (xs : list A) :
  (forall x, In x xs -> exists y, f x = Ok y) ->
  exists ys, mapM f xs = Ok ys.
Proof.
  induction xs as [| x xs IH]; intros Hf; simpl.
  - now exists [].
  - destruct (Hf x (or_introl eq_refl)) as (y & ->).
    destruct IH as (ys & ->).
    + intros z Hz. apply Hf. now right.
    + simpl. now exists (y :: ys).
Qed.

Lemma Forall2_nth_error {A B : Type} (R : A -> B -> Prop) xs ys i x :
  Forall2 R xs ys -> nth_error xs i = Some x ->
  exists y, nth_error ys i = Some y /\ R x y.
Proof.
  intros H. revert i. induction H as [| a b xs ys Hab _ IH]; intros i Hi.
  - destruct i; discriminate Hi.
  - destruct i as [| i]; simpl in *.
    + injection Hi as <-. now exists b.
    + now apply IH.
Qed.

(** ** [range] *)

Lemma length_range n : length (range n) = Z.to_nat n.
Proof. unfold range. now rewrite length_map, length_seq. Qed.

Lemma In_range n x : In x (range n) <-> 0 <= x < n.
Proof.
  unfold range. rewrite in_map_iff. split.
  - intros (k & <- & Hk). apply in_seq in Hk. lia.
  - intros Hx. exists (Z.to_nat x). split; [lia |]. apply in_seq. lia.
Qed.

Lemma nth_error_range n i :
  0 <= i < n -> nth_error (range n) (Z.to_nat i) = Some i.
Proof.
  intros Hi. unfold range.
  rewrite nth_error_map, nth_error_seq.
  destruct (Nat.ltb_spec (Z.to_nat i) (Z.to_nat n)); [| lia].
  simpl. f_equal. lia.
Qed.

Lemma range_nonpositive n : n <= 0 -> range n = [].
Proof.
  intros Hn. unfold range.
  replace (Z.to_nat n) with 0%nat by lia. reflexivity.
Qed.

(** ** Indexing *)

Lemma normalise_index_in_bounds len i :
  0 <= i < len -> normalise_index len i = Ok (Z.to_nat i).
Proof.
  intros Hi. unfold normalise_index. cbv zeta.
  assert (E : (i <? 0) = false) by (apply Z.ltb_ge; lia).
  rewrite E. cbv iota. rewrite E.
  replace (len <=? i) with false by (symmetry; apply Z.leb_gt; lia).
  reflexivity.
Qed.

Lemma list_getitem_in_bounds {A : Type} (l : list A) i :
  in_bounds l i ->
  exists x, nth_error l (Z.to_nat i) = Some x /\ list_getitem l i = Ok x.
Proof.
  intros Hi. unfold list_getitem.
  rewrite normalise_index_in_bounds by exact Hi. simpl.
  destruct (nth_error l (Z.to_nat i)) as [x |] eqn:E.
  - now exists x.
  - apply nth_error_None in E. unfold in_bounds in Hi. lia.
Qed.

Lemma list_getitem_In {A : Type} (l : list A) i x :
  list_getitem l i = Ok x -> In x l.
Proof.
  unfold list_getitem. intros H.
  apply bind_Ok_inv in H as (j & _ & H).
  destruct (nth_error l j) as [y |] eqn:E; [| discriminate H].
  injection H as <-. eapply nth_error_In, E.
Qed.

Lemma list_getitem_nth_error {A : Type} (l : list A) i x :
  0 <= i -> nth_error l (Z.to_nat i) = Some x -> list_getitem l i = Ok x.
Proof.
  intros Hi E.
  assert (Hlt : (Z.to_nat i < length l)%nat)
    by (apply nth_error_Some; rewrite E; discriminate).
  destruct (list_getitem_in_bounds l i) as (y & Ey & ->).
  - unfold in_bounds. lia.
  - congruence.
Qed.

(** ** Reading a cell *)

Lemma cell_at_in_grid g r c :
  rectangular g -> in_grid g r c ->
  exists line v,
    nth_error (cells g) (Z.to_nat r) = Some line /\
    nth_error line (Z.to_nat c) = Some v /\
    in_bounds (cells g) r /\ in_bounds line c /\
    cell_at g r c = Ok v.
Proof.
  intros Hg (Hr & Hc).
  assert (Br : in_bounds (cells g) r)
    by (unfold in_bounds; rewrite (rect_rows g Hg); exact Hr).
  destruct (list_getitem_in_bounds _ _ Br) as (line & Eline & Gline).
  assert (Bc : in_bounds line c).
  { unfold in_bounds.
    pose proof (rect_cols g Hg) as Hcols. rewrite Forall_forall in Hcols.
    rewrite (Hcols line (nth_error_In _ _ Eline)). exact Hc. }
  destruct (list_getitem_in_bounds _ _ Bc) as (v & Ev & Gv).
  exists line, v. repeat split; try assumption; try apply Br; try apply Bc.
  unfold cell_at. rewrite Gline. exact Gv.
Qed.

Lemma cell_at_In g r c v :
  cell_at g r c = Ok v -> exists line, In line (cells g) /\ In v line.
Proof.
  unfold cell_at. intros H.
  apply bind_Ok_inv in H as (line & Hline & Hv).
  exists line. split; eapply list_getitem_In; eassumption.
Qed.

Lemma cell_at_in_band g r c v :
  cells_in_range g -> cell_at g r c = Ok v -> in_band v.
Proof.
  intros Hg H. apply cell_at_In in H as (line & Hline & Hv).
  unfold cells_in_range in Hg. rewrite Forall_forall in Hg.
  specialize (Hg line Hline). rewrite Forall_forall in Hg. now apply Hg.
Qed.

(** ** Wrapping and the four neighbours *)

Lemma wrap_positive value max_value :
  0 < max_value ->
  _wrap value max_value = Ok (value mod max_value) /\
  0 <= value mod max_value < max_value.
Proof.
  intros Hm. unfold _wrap, py_mod.
  destruct (Z.eqb_spec max_value 0); [lia |].
  split; [reflexivity | now apply Z.mod_pos_bound].
Qed.

Lemma neighbor_coords_positive g row col :
  0 < height g -> 0 < width g ->
  neighbor_coords g row col =
    [ Ok ((row - 1) mod height g, col mod width g);
      Ok ((row + 1) mod height g, col mod width g);
      Ok (row mod height g, (col - 1) mod width g);
      Ok (row mod height g, (col + 1) mod width g) ].
Proof.
  intros Hh Hw. unfold neighbor_coords, DELTAS. simpl.
  rewrite !Z.add_0_r.
  repeat match goal with
  | |- context [_wrap ?v (height g)] =>
      rewrite (proj1 (wrap_positive v (height g) Hh))
  | |- context [_wrap ?v (width g)] =>
      rewrite (proj1 (wrap_positive v (width g) Hw))
  end.
  reflexivity.
Qed.

Lemma neighbor_coords_in_grid g row col :
  0 < height g -> 0 < width g ->
  Forall (fun y => exists r c, y = Ok (r, c) /\ in_grid g r c)
         (neighbor_coords g row col).
Proof.
  intros Hh Hw. rewrite neighbor_coords_positive by assumption.
  repeat constructor;
    eexists _, _; (split; [reflexivity |]); split;
    apply Z.mod_pos_bound; assumption.
Qed.

(** ** Counting the active neighbours *)

Lemma count_active_values_cons v vs :
  count_active_values (v :: vs) =
  (if ACTIVE_THRESHOLD <=? v then 1 else 0) + count_active_values vs.
Proof.
  unfold count_active_values. cbn [filter].
  destruct (ACTIVE_THRESHOLD <=? v); cbn [length]; lia.
Qed.

Lemma count_active_values_bounds vs :
  0 <= count_active_values vs <= Z.of_nat (length vs).
Proof.
  unfold count_active_values.
  pose proof (filter_length_le (fun v => ACTIVE_THRESHOLD <=? v) vs). lia.
Qed.

Lemma active_count_values g gen vs :
  Forall2 (yields_value g) gen vs ->
  forall acc, active_count g gen acc = Ok (acc + count_active_values vs).
Proof.
  induction 1 as [| y v gen vs (r & c & -> & Hv) _ IH]; intros acc; simpl.
  - unfold count_active_values. simpl. f_equal. lia.
  - rewrite Hv. simpl. rewrite IH, count_active_values_cons.
    f_equal. destruct (ACTIVE_THRESHOLD <=? v); lia.
Qed.

Lemma neighbor_values_exist g row col :
  rectangular g ->
  exists vs, Forall2 (yields_value g) (neighbor_coords g row col) vs.
Proof.
  intros Hg.
  pose proof (neighbor_coords_in_grid g row col
                (rect_height g Hg) (rect_width g Hg)) as H.
  induction H as [| y gen (r & c & -> & Hrc) _ (vs & IH)].
  - exists []. constructor.
  - destruct (cell_at_in_grid g r c Hg Hrc) as (_ & v & _ & _ & _ & _ & Hv).
    exists (v :: vs). constructor; [| exact IH].
    now exists r, c.
Qed.

(** ** The transition of one cell *)

Lemma mod_state_range v :
  py_mod v STATE_RANGE = Ok (v mod 7) /\ in_band (v mod 7).
Proof.
  split; [reflexivity |]. unfold in_band, STATE_RANGE.
  apply Z.mod_pos_bound. lia.
Qed.

Lemma next_state_cases current active :
  next_state current active =
    Ok (if 2 <=? active then (current + 1) mod 7
        else if active =? 0 then (current - 1) mod 7
        else current).
Proof.
  unfold next_state.
  destruct (2 <=? active); [apply mod_state_range |].
  destruct (active =? 0); [apply mod_state_range | reflexivity].
Qed.

Lemma next_state_in_band current active v :
  in_band current -> next_state current active = Ok v -> in_band v.
Proof.
  rewrite next_state_cases. intros Hc [= <-].
  destruct (2 <=? active); [apply mod_state_range |].
  destruct (active =? 0); [apply mod_state_range | exact Hc].
Qed.

Lemma next_cell_rectangular g row col :
  rectangular g -> in_grid g row col ->
  exists current vs,
    cell_at g row col = Ok current /\
    Forall2 (yields_value g) (neighbor_coords g row col) vs /\
    next_cell g row col = next_state current (count_active_values vs).
Proof.
  intros Hg Hrc.
  destruct (cell_at_in_grid g row col Hg Hrc)
    as (_ & current & _ & _ & _ & _ & Hcur).
  destruct (neighbor_values_exist g row col Hg) as (vs & Hvs).
  exists current, vs. repeat split; try assumption.
  unfold next_cell. rewrite Hcur. cbn [bind].
  rewrite (active_count_values g _ vs Hvs 0). reflexivity.
Qed.

Lemma next_cell_in_band g row col v :
  cells_in_range g -> next_cell g row col = Ok v -> in_band v.
Proof.
  intros Hg H. unfold next_cell in H.
  apply bind_Ok_inv in H as (current & Hcur & H).
  apply bind_Ok_inv in H as (active & _ & H).
  eapply next_state_in_band; [| exact H].
  eapply cell_at_in_band; eassumption.
Qed.

(** ** One step of the whole grid *)

Lemma step_Ok_iff g g' :
  step g = Ok g' <->
  width g' = width g /\ height g' = height g /\ stepped_cells g (cells g').
Proof.
  unfold step, stepped_cells. split.
  - intros H. apply bind_Ok_inv in H as (next_cells & Hm & [= <-]). simpl.
    repeat split. apply mapM_Ok_Forall2 in Hm.
    eapply Forall2_impl; [| exact Hm].
    intros row line Hl. now apply mapM_Ok_Forall2.
  - intros (Hw & Hh & H). destruct g' as [w' h' cs']. simpl in *. subst.
    assert (E : mapM (fun row => mapM (fun col => next_cell g row col)
                                      (range (width g)))
                     (range (height g)) = Ok cs').
    { apply mapM_Ok_Forall2.
      eapply Forall2_impl; [| exact H].
      intros row line Hl. now apply mapM_Ok_Forall2. }
    rewrite E. reflexivity.
Qed.

Lemma step_total g : rectangular g -> exists g', step g = Ok g'.
Proof.
  intros Hg. unfold step.
  destruct (mapM_total
              (fun row => mapM (fun col => next_cell g row col)
                               (range (width g)))
              (range (height g))) as (next_cells & ->).
  - intros row Hrow. apply In_range in Hrow.
    apply mapM_total. intros col Hcol. apply In_range in Hcol.
    destruct (next_cell_rectangular g row col Hg (conj Hrow Hcol))
      as (current & vs & _ & _ & ->).
    rewrite next_state_cases. eauto.
  - simpl. eauto.
Qed.

Lemma stepped_cells_shape g next_cells :
  stepped_cells g next_cells ->
  length next_cells = Z.to_nat (height g) /\
  Forall (fun line => length line = Z.to_nat (width g)) next_cells.
Proof.
  unfold stepped_cells. intros H. split.
  - apply Forall2_length in H. now rewrite length_range in H.
  - induction H as [| row line rows lines Hl _ IH]; constructor.
    + apply Forall2_length in Hl. now rewrite length_range in Hl.
    + exact IH.
Qed.

Lemma step_rectangular g g' :
  0 < width g -> 0 < height g -> step g = Ok g' -> rectangular g'.
Proof.
  intros Hw Hh H. apply step_Ok_iff in H as (Ew & Eh & Hc).
  apply stepped_cells_shape in Hc as (Hrows & Hcols).
  constructor.
  - lia.
  - lia.
  - rewrite Hrows. lia.
  - eapply Forall_impl; [| exact Hcols]. simpl. intros line ->. lia.
Qed.

Lemma step_cell g g' row col :
  step g = Ok g' -> in_grid g row col ->
  exists v, next_cell g row col = Ok v /\ cell_at g' row col = Ok v.
Proof.
  intros H (Hr & Hc). apply step_Ok_iff in H as (_ & _ & H).
  destruct (Forall2_nth_error _ _ _ _ _ H (nth_error_range _ _ Hr))
    as (line & Eline & Hline).
  destruct (Forall2_nth_error _ _ _ _ _ Hline (nth_error_range _ _ Hc))
    as (v & Ev & Hv).
  exists v. split; [exact Hv |].
  unfold cell_at.
  rewrite (list_getitem_nth_error _ _ _ (proj1 Hr) Eline). simpl.
  apply list_getitem_nth_error; [apply Hc | exact Ev].
Qed.

Lemma step_cells_in_range g g' :
  cells_in_range g -> step g = Ok g' -> cells_in_range g'.
Proof.
  intros Hg H. apply step_Ok_iff in H as (_ & _ & H).
  unfold cells_in_range, stepped_cells in *.
  induction H as [| row line rows lines Hl _ IH]; constructor; [| exact IH].
  clear IH. induction Hl as [| col v cols vs Hv _ IH]; constructor.
  - eapply next_cell_in_band; eassumption.
  - exact IH.
Qed.

Lemma step_well_formed g :
  well_formed g ->
  exists g', step g = Ok g' /\ well_formed g' /\
             width g' = width g /\ height g' = height g.
Proof.
  intros (Hrect & Hrange).
  destruct (step_total g Hrect) as (g' & Hstep).
  exists g'. split; [exact Hstep |].
  pose proof (step_Ok_iff g g') as [(Ew & Eh & _) _]; [exact Hstep |].
  split; [split |]; [| | now split].
  - eapply step_rectangular; try eassumption; apply Hrect.
  - eapply step_cells_in_range; eassumption.
Qed.

(** ** Repeated steps *)

Lemma for_loop_step_n (xs : list Z) g :
  for_loop xs (fun _ state => step state) g = step_n (length xs) g.
Proof.
  revert g. induction xs as [| x xs IH]; intros g; simpl.
  - reflexivity.
  - destruct (step g) as [g' | e]; simpl; [apply IH | reflexivity].
Qed.

Lemma simulate_step_n g steps :
  simulate g steps = step_n (Z.to_nat steps) g.
Proof.
  unfold simulate. now rewrite for_loop_step_n, length_range.
Qed.

Lemma step_n_snoc n g :
  step_n (S n) g = (g' <- step_n n g ;; step g').
Proof.
  revert g. induction n as [| n IH]; intros g.
  - simpl. now destruct (step g).
  - change (step_n (S (S n)) g) with (g' <- step g ;; step_n (S n) g').
    change (step_n (S n) g) with (g' <- step g ;; step_n n g').
    destruct (step g) as [g' | e]; simpl; [apply IH | reflexivity].
Qed.

Lemma step_n_well_formed n :
  forall g, well_formed g ->
  exists g', step_n n g = Ok g' /\ well_formed g' /\
             width g' = width g /\ height g' = height g.
Proof.
  induction n as [| n IH]; intros g Hg; simpl.
  - exists g. split; [reflexivity |]. split; [exact Hg |]. now split.
  - destruct (step_well_formed g Hg) as (g1 & -> & Hg1 & Ew & Eh). simpl.
    destruct (IH g1 Hg1) as (g' & Hn & Hg' & Ew' & Eh').
    exists g'. split; [exact Hn |]. split; [exact Hg' |].
    split; congruence.
Qed.

Lemma step_n_cells_in_range n :
  forall g g', cells_in_range g -> step_n n g = Ok g' -> cells_in_range g'.
Proof.
  induction n as [| n IH]; intros g g' Hg H; simpl in H.
  - now injection H as <-.
  - apply bind_Ok_inv in H as (g1 & H1 & H).
    eapply IH; [| exact H]. eapply step_cells_in_range; eassumption.
Qed.

(** ** Two grids that agree around a coordinate *)

Lemma neighbor_coords_same_dimensions g1 g2 row col :
  width g1 = width g2 -> height g1 = height g2 ->
  neighbor_coords g1 row col = neighbor_coords g2 row col.
Proof. unfold neighbor_coords. now intros -> ->. Qed.

Lemma active_count_agree g1 g2 gen :
  Forall (fun y => exists r c, y = Ok (r, c) /\ agree_at g1 g2 r c) gen ->
  forall acc, active_count g1 gen acc = active_count g2 gen acc.
Proof.
  induction 1 as [| y gen (r & c & -> & Hrc) _ IH]; intros acc; simpl.
  - reflexivity.
  - unfold agree_at in Hrc. rewrite Hrc.
    destruct (cell_at g2 r c) as [v | e]; simpl; [apply IH | reflexivity].
Qed.

Lemma read_in_bounds_in_grid g r c :
  rectangular g -> in_grid g r c -> read_in_bounds g r c.
Proof.
  intros Hg Hrc.
  destruct (cell_at_in_grid g r c Hg Hrc) as (line & v & El & _ & Br & Bc & _).
  split; [exact Br |]. now exists line.
Qed.

(** ** The properties of the specification *)

(** C1. The per-cell transition: for a current value in [0,7) and an
    active-neighbour count in [0,4] (a neighbour counts when its value is
    at least 4), the next value is [(current + 1) mod 7] when the count
    is at least 2, [(current - 1) mod 7] when it is 0 (so 0 becomes 6),
    and the current value when it is 1; and this is the value that
    [step] stores at the cell's coordinate. *)
Theorem transition_rule current active_neighbors :
  in_band current -> 0 <= active_neighbors <= 4 ->
  exists next,
    next_state current active_neighbors = Ok next /\
    in_band next /\
    (2 <= active_neighbors -> next = (current + 1) mod 7) /\
    (active_neighbors = 0 ->
       next = (current - 1) mod 7 /\ (current = 0 -> next = 6)) /\
    (active_neighbors = 1 -> next = current) /\
    (forall g g' row col vs,
       in_grid g row col ->
       cell_at g row col = Ok current ->
       Forall2 (yields_value g) (neighbor_coords g row col) vs ->
       count_active_values vs = active_neighbors ->
       step g = Ok g' ->
       cell_at g' row col = Ok next).
Proof.
  intros Hcur Hact. eexists. split; [apply next_state_cases |].
  split; [eapply next_state_in_band; [exact Hcur | apply next_state_cases] |].
  split; [| split; [| split]].
  - intros H. destruct (Z.leb_spec 2 active_neighbors); [reflexivity | lia].
  - intros ->. simpl. split; [reflexivity | now intros ->].
  - intros ->. reflexivity.
  - intros g g' row col vs Hrc Hc Hvs Hn Hstep.
    destruct (step_cell g g' row col Hstep Hrc) as (v & Hv & ->).
    rewrite <- Hv. rewrite <- next_state_cases.
    unfold next_cell. rewrite Hc. cbn [bind].
    rewrite (active_count_values g _ vs Hvs 0). cbn [bind].
    now rewrite Z.add_0_l, Hn.
Qed.

Lemma transition_rule_witness :
  in_band 0 /\ 0 <= 0 <= 4 /\
  exists next, next_state 0 0 = Ok next /\ next = 6.
Proof.
  assert (H1 : in_band 0) by (unfold in_band, STATE_RANGE; lia).
  assert (H2 : 0 <= 0 <= 4) by lia.
  split; [exact H1 |]. split; [exact H2 |].
  destruct (transition_rule 0 0 H1 H2) as (next & Hn & _ & _ & H0 & _).
  exists next. split; [exact Hn |]. now apply H0.
Defined.

(** C2. Range invariant: when every cell of a grid lies in [0,7), so
    does every cell of the grid that [step] produces and of the grid that
    [simulate] produces after any number of steps; on a rectangular grid
    these grids are indeed produced. *)
Theorem range_invariant g :
  cells_in_range g ->
  (forall g', step g = Ok g' -> cells_in_range g') /\
  (forall steps g', simulate g steps = Ok g' -> cells_in_range g') /\
  (rectangular g ->
   forall steps, exists g', simulate g steps = Ok g' /\ cells_in_range g').
Proof.
  intros Hg. split; [| split].
  - intros g'. now apply step_cells_in_range.
  - intros steps g'. rewrite simulate_step_n. now apply step_n_cells_in_range.
  - intros Hrect steps. rewrite simulate_step_n.
    destruct (step_n_well_formed (Z.to_nat steps) g (conj Hrect Hg))
      as (g' & Hn & (_ & Hr) & _).
    now exists g'.
Qed.

Lemma sample_grid_well_formed : well_formed sample_grid.
Proof.
  split.
  - constructor; simpl; try lia. repeat constructor.
  - unfold cells_in_range, in_band, STATE_RANGE. simpl.
    repeat constructor; lia.
Qed.

Lemma range_invariant_witness :
  cells_in_range sample_grid /\
  exists g', simulate sample_grid 3 = Ok g' /\ cells_in_range g'.
Proof.
  pose proof sample_grid_well_formed as (Hrect & Hrange).
  split; [exact Hrange |].
  exact (proj2 (proj2 (range_invariant sample_grid Hrange)) Hrect 3).
Defined.

(** C3. The neighbour resolver: at a coordinate of a grid with positive
    dimensions it yields exactly four pairs, north, south, west and east,
    the moved index wrapped by the non-negative modulo; every row index
    lies in [0, height) and every column index in [0, width), and at the
    borders the neighbour is on the opposite edge. *)
Theorem neighbor_coords_wrap g row col :
  0 < height g -> 0 < width g -> in_grid g row col ->
  neighbor_coords g row col =
    [ Ok ((row - 1) mod height g, col);
      Ok ((row + 1) mod height g, col);
      Ok (row, (col - 1) mod width g);
      Ok (row, (col + 1) mod width g) ] /\
  Forall (fun y => exists r c, y = Ok (r, c) /\ in_grid g r c)
         (neighbor_coords g row col) /\
  (row = 0 -> (row - 1) mod height g = height g - 1) /\
  (0 < row -> (row - 1) mod height g = row - 1) /\
  (row = height g - 1 -> (row + 1) mod height g = 0) /\
  (row < height g - 1 -> (row + 1) mod height g = row + 1) /\
  (col = 0 -> (col - 1) mod width g = width g - 1) /\
  (0 < col -> (col - 1) mod width g = col - 1) /\
  (col = width g - 1 -> (col + 1) mod width g = 0) /\
  (col < width g - 1 -> (col + 1) mod width g = col + 1).
Proof.
  intros Hh Hw (Hr & Hc).
  split.
  { rewrite neighbor_coords_positive by assumption.
    now rewrite (Z.mod_small row), (Z.mod_small col). }
  split; [now apply neighbor_coords_in_grid |].
  repeat split; intros H.
  - subst row. replace (0 - 1) with (-1 * height g + (height g - 1)) by lia.
    rewrite Z.add_comm, Z.mod_add by lia. apply Z.mod_small. lia.
  - apply Z.mod_small. lia.
  - subst row. replace (height g - 1 + 1) with (height g) by lia.
    apply Z.mod_same. lia.
  - apply Z.mod_small. lia.
  - subst col. replace (0 - 1) with (-1 * width g + (width g - 1)) by lia.
    rewrite Z.add_comm, Z.mod_add by lia. apply Z.mod_small. lia.
  - apply Z.mod_small. lia.
  - subst col. replace (width g - 1 + 1) with (width g) by lia.
    apply Z.mod_same. lia.
  - apply Z.mod_small. lia.
Qed.

Lemma neighbor_coords_wrap_witness :
  neighbor_coords sample_grid 0 2 =
    [Ok (1, 2); Ok (1, 2); Ok (0, 1); Ok (0, 0)].
Proof.
  assert (Hh : 0 < height sample_grid) by (simpl; lia).
  assert (Hw : 0 < width sample_grid) by (simpl; lia).
  assert (Hrc : in_grid sample_grid 0 2) by (unfold in_grid; simpl; lia).
  exact (proj1 (neighbor_coords_wrap sample_grid 0 2 Hh Hw Hrc)).
Defined.

(** C4. [simulate g steps], for a well-formed grid and [steps >= 0], is
    the [steps]-fold sequential application of [step], each output being
    the next input; it returns a grid, and [simulate g 0] returns the
    cells of [g]. *)
Theorem simulate_iterates_step g steps :
  well_formed g -> 0 <= steps ->
  simulate g steps = step_n (Z.to_nat steps) g /\
  simulate g (steps + 1) = (g' <- simulate g steps ;; step g') /\
  (exists g', simulate g steps = Ok g') /\
  (exists g0, simulate g 0 = Ok g0 /\ cells g0 = cells g).
Proof.
  intros Hg Hsteps. split; [apply simulate_step_n |].
  split; [| split].
  - rewrite !simulate_step_n.
    replace (Z.to_nat (steps + 1)) with (S (Z.to_nat steps)) by lia.
    apply step_n_snoc.
  - rewrite simulate_step_n.
    destruct (step_n_well_formed (Z.to_nat steps) g Hg) as (g' & Hn & _).
    now exists g'.
  - exists g. split; reflexivity.
Qed.

Lemma simulate_iterates_step_witness :
  well_formed sample_grid /\ 0 <= 2 /\
  simulate sample_grid 2 =
    (g1 <- step sample_grid ;; g2 <- step g1 ;; Ok g2).
Proof.
  assert (H : 0 <= 2) by lia.
  split; [exact sample_grid_well_formed |]. split; [exact H |].
  exact (proj1 (simulate_iterates_step sample_grid 2
                  sample_grid_well_formed H)).
Defined.

(** C5. Dimension preservation: for a well-formed grid and [steps >= 0],
    [simulate g steps] returns a grid of the same width and height, whose
    cells are exactly [height] rows of exactly [width] columns; so does a
    single [step]. *)
Theorem simulate_preserves_dimensions g steps :
  well_formed g -> 0 <= steps ->
  (exists g', simulate g steps = Ok g' /\
     width g' = width g /\ height g' = height g /\
     Z.of_nat (length (cells g')) = height g /\
     Forall (fun line => Z.of_nat (length line) = width g) (cells g')) /\
  (exists g1, step g = Ok g1 /\
     width g1 = width g /\ height g1 = height g /\
     Z.of_nat (length (cells g1)) = height g /\
     Forall (fun line => Z.of_nat (length line) = width g) (cells g1)).
Proof.
  intros Hg _. split.
  - rewrite simulate_step_n.
    destruct (step_n_well_formed (Z.to_nat steps) g Hg)
      as (g' & Hn & (Hrect & _) & Ew & Eh).
    exists g'. split; [exact Hn |]. split; [exact Ew |]. split; [exact Eh |].
    rewrite <- Ew, <- Eh. split; [apply Hrect | apply Hrect].
  - destruct (step_well_formed g Hg) as (g1 & Hs & (Hrect & _) & Ew & Eh).
    exists g1. split; [exact Hs |]. split; [exact Ew |]. split; [exact Eh |].
    rewrite <- Ew, <- Eh. split; [apply Hrect | apply Hrect].
Qed.

Lemma simulate_preserves_dimensions_witness :
  well_formed sample_grid /\ 0 <= 5 /\
  exists g', simulate sample_grid 5 = Ok g' /\ width g' = 3 /\ height g' = 2.
Proof.
  assert (H : 0 <= 5) by lia.
  split; [exact sample_grid_well_formed |]. split; [exact H |].
  destruct (proj1 (simulate_preserves_dimensions sample_grid 5
                     sample_grid_well_formed H))
    as (g' & Hs & Ew & Eh & _).
  exists g'. split; [exact Hs |]. split; [exact Ew | exact Eh].
Defined.

(** C7. [step] is total on a well-formed grid: it returns a grid, no
    exception is raised, and every index it reads, the cell itself and
    its four wrapped neighbours, is a position of the list it is read
    from. *)
Theorem step_total_in_bounds g :
  well_formed g ->
  (exists g', step g = Ok g') /\
  (forall e, step g <> Raise e) /\
  (forall row col, in_grid g row col ->
     read_in_bounds g row col /\
     Forall (fun y => exists r c, y = Ok (r, c) /\ read_in_bounds g r c)
            (neighbor_coords g row col) /\
     exists v, next_cell g row col = Ok v).
Proof.
  intros (Hrect & _).
  destruct (step_total g Hrect) as (g' & Hstep).
  split; [now exists g' |]. split; [rewrite Hstep; discriminate |].
  intros row col Hrc. split; [now apply read_in_bounds_in_grid |]. split.
  - eapply Forall_impl;
      [| apply neighbor_coords_in_grid; apply Hrect].
    intros y (r & c & -> & Hin). exists r, c.
    split; [reflexivity | now apply read_in_bounds_in_grid].
  - destruct (step_cell g g' row col Hstep Hrc) as (v & Hv & _).
    now exists v.
Qed.

Lemma step_total_in_bounds_witness :
  well_formed sample_grid /\ exists g', step sample_grid = Ok g'.
Proof.
  split; [exact sample_grid_well_formed |].
  exact (proj1 (step_total_in_bounds sample_grid sample_grid_well_formed)).
Defined.

(** C8. On the 1x1 grid holding 4, the four wrapped neighbours of the
    cell are the cell itself, its active-neighbour count is 4, and one
    [step] yields the 1x1 grid holding 5. *)
Theorem single_cell_step :
  neighbor_coords single_cell 0 0 =
    [Ok (0, 0); Ok (0, 0); Ok (0, 0); Ok (0, 0)] /\
  active_count single_cell (neighbor_coords single_cell 0 0) 0 = Ok 4 /\
  step single_cell = Ok (mkState 1 1 [[5]]).
Proof. repeat split. Qed.

(** C9. For every grid and every [steps < 0], [simulate] returns the
    grid it was given, unchanged, and raises nothing: the loop body runs
    zero times, as with [steps = 0]. *)
Theorem simulate_negative_steps g steps :
  steps < 0 -> simulate g steps = Ok g /\ simulate g steps = simulate g 0.
Proof.
  intros H. unfold simulate. rewrite range_nonpositive by lia.
  split; reflexivity.
Qed.

Lemma simulate_negative_steps_witness :
  -3 < 0 /\ simulate (mkState 0 (-1) [[9]; []]) (-3)
            = Ok (mkState 0 (-1) [[9]; []]).
Proof.
  assert (H : -3 < 0) by lia.
  split; [exact H |].
  exact (proj1 (simulate_negative_steps (mkState 0 (-1) [[9]; []]) (-3) H)).
Defined.

(** C10. Per-cell locality: when two well-formed grids of equal width
    and height agree at a coordinate and at its four wrapped neighbour
    coordinates, the grids that [step] produces from them agree at that
    coordinate. *)
Theorem step_locality g1 g2 row col :
  well_formed g1 -> well_formed g2 ->
  width g1 = width g2 -> height g1 = height g2 ->
  in_grid g1 row col ->
  agree_at g1 g2 row col ->
  Forall (fun y => exists r c, y = Ok (r, c) /\ agree_at g1 g2 r c)
         (neighbor_coords g1 row col) ->
  exists g1' g2' v,
    step g1 = Ok g1' /\ step g2 = Ok g2' /\
    cell_at g1' row col = Ok v /\ cell_at g2' row col = Ok v.
Proof.
  intros (Hr1 & _) (Hr2 & _) Ew Eh Hrc Hcell Hnb.
  destruct (step_total g1 Hr1) as (g1' & Hs1).
  destruct (step_total g2 Hr2) as (g2' & Hs2).
  assert (Hrc2 : in_grid g2 row col)
    by (unfold in_grid in *; rewrite <- Ew, <- Eh; exact Hrc).
  destruct (step_cell g1 g1' row col Hs1 Hrc) as (v1 & Hn1 & Hc1).
  destruct (step_cell g2 g2' row col Hs2 Hrc2) as (v2 & Hn2 & Hc2).
  assert (E : next_cell g1 row col = next_cell g2 row col).
  { unfold next_cell. unfold agree_at in Hcell. rewrite Hcell.
    rewrite (active_count_agree g1 g2 _ Hnb 0).
    now rewrite (neighbor_coords_same_dimensions g1 g2 row col Ew Eh). }
  exists g1', g2', v1. repeat split; try assumption.
  rewrite Hc2. congruence.
Qed.

Lemma step_locality_witness :
  exists g1' g2' v,
    step sample_grid = Ok g1' /\
    step (mkState 3 2 [[0; 5; 2]; [3; 1; 4]]) = Ok g2' /\
    cell_at g1' 0 1 = Ok v /\ cell_at g2' 0 1 = Ok v.
Proof.
  apply (step_locality sample_grid (mkState 3 2 [[0; 5; 2]; [3; 1; 4]]) 0 1).
  - exact sample_grid_well_formed.
  - split.
    + constructor; simpl; try lia. repeat constructor.
    + unfold cells_in_range, in_band, STATE_RANGE. simpl.
      repeat constructor; lia.
  - reflexivity.
  - reflexivity.
  - unfold in_grid. simpl. lia.
  - reflexivity.
  - repeat constructor; eexists _, _; split; reflexivity.
Defined.

(** ** Rendering *)

Lemma str_getitem_palette s :
  in_band s ->
  exists c, String.get (Z.to_nat s) PALETTE = Some c /\
            str_getitem PALETTE s = Ok (String c EmptyString) /\
            c <> ascii_of_nat 10.
Proof.
  unfold in_band, STATE_RANGE. intros Hs.
  assert (E : s = 0 \/ s = 1 \/ s = 2 \/ s = 3 \/ s = 4 \/ s = 5 \/ s = 6)
    by lia.
  repeat (destruct E as [-> | E]); try subst s;
    eexists; (split; [reflexivity |]); (split; [reflexivity |]);
    discriminate.
Qed.

Lemma concat_empty_cons c (chars : list string) :
  String.concat "" (String c EmptyString :: chars) =
  String c (String.concat "" chars).
Proof. destruct chars; reflexivity. Qed.

Lemma render_row row :
  Forall in_band row ->
  exists line,
    (chars <- mapM (fun state => str_getitem PALETTE state) row ;;
     Ok (String.concat "" chars)) = Ok line /\
    renders_row row line.
Proof.
  induction 1 as [| v row Hv _ (line & Hline & Hlen & Hfree & Hget)].
  - exists EmptyString. split; [reflexivity |].
    split; [reflexivity |]. split; [exact I |].
    intros [| i] v H; discriminate H.
  - destruct (str_getitem_palette v Hv) as (c & Hc & Hstr & Hnl).
    apply bind_Ok_inv in Hline as (chars & Hchars & [= <-]).
    exists (String c (String.concat "" chars)). split.
    + cbn [mapM]. rewrite Hstr. cbn [bind]. rewrite Hchars. cbn [bind].
      now rewrite concat_empty_cons.
    + split; [simpl; now rewrite Hlen |]. split; [now split |].
      intros [| i] w Hw; simpl in Hw.
      * injection Hw as <-. now rewrite Hc.
      * now apply Hget.
Qed.

Lemma render_lines rows :
  Forall (Forall in_band) rows ->
  exists lines,
    mapM (fun row =>
            chars <- mapM (fun state => str_getitem PALETTE state) row ;;
            Ok (String.concat "" chars)) rows = Ok lines /\
    Forall2 renders_row rows lines.
Proof.
  induction 1 as [| row rows Hrow _ (lines & Hlines & Hall)].
  - exists []. split; [reflexivity | constructor].
  - destruct (render_row row Hrow) as (line & Hline & Hr).
    exists (line :: lines). split.
    + cbn [mapM]. rewrite Hline. cbn [bind]. rewrite Hlines. reflexivity.
    + now constructor.
Qed.

Lemma render_Ok g :
  cells_in_range g ->
  exists lines,
    render g = Ok (String.concat newline lines) /\
    Forall2 renders_row (cells g) lines.
Proof.
  intros Hg. destruct (render_lines (cells g) Hg) as (lines & Hm & Hall).
  exists lines. split; [| exact Hall].
  unfold render. rewrite Hm. reflexivity.
Qed.

(** ** Lines and newlines *)

Lemma split_lines_line line :
  newline_free line -> split_lines line = [line].
Proof.
  induction line as [| c line IH]; simpl; intros H.
  - reflexivity.
  - destruct H as (Hc & H). rewrite (IH H).
    apply Ascii.eqb_neq in Hc. now rewrite Hc.
Qed.

Lemma split_lines_app line rest :
  newline_free line ->
  split_lines (line ++ newline ++ rest) = line :: split_lines rest.
Proof.
  induction line as [| c line IH]; intros H.
  - reflexivity.
  - destruct H as (Hc & H). cbn [String.append split_lines].
    apply Ascii.eqb_neq in Hc. rewrite Hc.
    change (split_lines (line ++ String (ascii_of_nat 10) rest))
      with (split_lines (line ++ newline ++ rest)).
    now rewrite (IH H).
Qed.

Lemma split_lines_concat lines :
  lines <> [] -> Forall newline_free lines ->
  split_lines (String.concat newline lines) = lines.
Proof.
  intros Hne H. induction H as [| line lines Hline Hlines IH].
  - contradiction.
  - destruct lines as [| line' lines'].
    + simpl. now apply split_lines_line.
    + change (String.concat newline (line :: line' :: lines'))
        with (line ++ newline ++ String.concat newline (line' :: lines'))%string.
      rewrite split_lines_app by exact Hline.
      f_equal. apply IH. discriminate.
Qed.

Lemma split_lines_trailing_newline s :
  exists ls, ls <> [] /\ split_lines (s ++ newline) = ls ++ [EmptyString].
Proof.
  induction s as [| c s (ls & Hne & IH)].
  - exists [EmptyString]. split; [discriminate | reflexivity].
  - cbn [String.append split_lines]. rewrite IH.
    destruct (Ascii.eqb c (ascii_of_nat 10)).
    + exists (EmptyString :: ls). split; [discriminate | reflexivity].
    + destruct ls as [| l ls]; [contradiction |].
      exists (String c l :: ls). split; [discriminate | reflexivity].
Qed.

Lemma Forall2_Forall_r {A B : Type} (R : A -> B -> Prop)
  (P : A -> Prop) (Q : B -> Prop) xs ys :
  (forall x y, P x -> R x y -> Q y) ->
  Forall2 R xs ys -> Forall P xs -> Forall Q ys.
Proof.
  intros HPQ H. induction H as [| x y xs ys Hxy _ IH]; intros HP.
  - constructor.
  - inversion HP; subst. constructor; [eapply HPQ; eassumption | now apply IH].
Qed.

(** C6. On a well-formed grid [render] returns a string made of exactly
    [height] lines of exactly [width] characters, joined by single
    newlines, without a trailing newline; the character at column [c] of
    line [r] is the character of the palette [" .:=*#@"] at the position
    given by the cell value; the 3x1 grid [0, 3, 6] renders as [" =@"]. *)
Theorem render_palette_lines g :
  well_formed g ->
  exists out lines,
    render g = Ok out /\
    out = String.concat newline lines /\
    split_lines out = lines /\
    Z.of_nat (length lines) = height g /\
    Forall (fun line => Z.of_nat (String.length line) = width g /\
                        newline_free line) lines /\
    (forall r c v,
       in_grid g r c -> cell_at g r c = Ok v ->
       exists line,
         nth_error lines (Z.to_nat r) = Some line /\
         String.get (Z.to_nat c) line = String.get (Z.to_nat v) PALETTE) /\
    (forall s, out <> (s ++ newline)%string) /\
    PALETTE = " .:=*#@"%string /\
    render palette_row = Ok " =@"%string.
Proof.
  intros (Hrect & Hrange).
  destruct (render_Ok g Hrange) as (lines & Hrender & Hall).
  assert (Hlen : Z.of_nat (length lines) = height g).
  { rewrite <- (Forall2_length Hall). apply Hrect. }
  assert (Hlines : Forall (fun line =>
                             Z.of_nat (String.length line) = width g /\
                             newline_free line) lines).
  { eapply Forall2_Forall_r; [| exact Hall | exact (rect_cols g Hrect)].
    intros row line Hrow (Hl & Hfree & _). simpl in Hrow.
    split; [rewrite Hl; exact Hrow | exact Hfree]. }
  assert (Hsplit : split_lines (String.concat newline lines) = lines).
  { apply split_lines_concat.
    - intros ->. simpl in Hlen. pose proof (rect_height g Hrect). lia.
    - eapply Forall_impl; [| exact Hlines]. now intros line (_ & Hfree). }
  exists (String.concat newline lines), lines.
  split; [exact Hrender |]. split; [reflexivity |].
  split; [exact Hsplit |]. split; [exact Hlen |]. split; [exact Hlines |].
  split; [| split; [| split; reflexivity]].
  - intros r c v Hrc Hv.
    destruct (cell_at_in_grid g r c Hrect Hrc)
      as (row & v' & Erow & Ev & _ & _ & Hv').
    assert (v' = v) by congruence. subst v'.
    destruct (Forall2_nth_error _ _ _ _ _ Hall Erow)
      as (line & Eline & _ & _ & Hget).
    exists line. split; [exact Eline | now apply Hget].
  - intros s Hs.
    destruct (split_lines_trailing_newline s) as (ls & _ & Hls).
    rewrite <- Hs, Hsplit in Hls. rewrite Hls in Hlines.
    apply Forall_app in Hlines as (_ & Hlast).
    inversion Hlast as [| ? ? (Hw & _) _]; subst. simpl in Hw.
    pose proof (rect_width g Hrect). lia.
Qed.

Lemma palette_row_well_formed : well_formed palette_row.
Proof.
  split.
  - constructor; simpl; try lia. repeat constructor.
  - unfold cells_in_range, in_band, STATE_RANGE. simpl.
    repeat constructor; lia.
Qed.

Lemma render_palette_lines_witness :
  well_formed palette_row /\
  exists out lines,
    render palette_row = Ok out /\
    out = String.concat newline lines /\
    Z.of_nat (length lines) = 1.
Proof.
  split; [exact palette_row_well_formed |].
  destruct (render_palette_lines palette_row palette_row_well_formed)
    as (out & lines & Hr & Ho & _ & Hl & _).
  exists out, lines. split; [exact Hr |]. split; [exact Ho | exact Hl].
Defined.

(** ** Further properties of the code *)

(** *** Which exceptions can occur *)

Lemma mapM_Raise {A B : Type} (f : A -> result B) (xs : list A) e :
  mapM f xs = Raise e -> exists x, In x xs /\ f x = Raise e.
Proof.
  induction xs as [| x xs IH]; simpl; intros H.
  - discriminate H.
  - destruct (f x) as [y | e'] eqn:Ex; simpl in H.
    + destruct (mapM f xs) as [ys | e'']; simpl in H; [discriminate H |].
      destruct (IH H) as (z & Hz & Ez). exists z. split; [now right | exact Ez].
    + exists x. split; [now left | congruence].
Qed.

Lemma normalise_index_Raise len i e :
  normalise_index len i = Raise e -> e = IndexError.
Proof.
  unfold normalise_index.
  destruct (_ || _); [now intros [= <-] | discriminate].
Qed.

Lemma list_getitem_Raise {A : Type} (l : list A) i e :
  list_getitem l i = Raise e -> e = IndexError.
Proof.
  unfold list_getitem.
  destruct (normalise_index _ i) as [j | e'] eqn:Ej; simpl.
  - destruct (nth_error l j); [discriminate | now intros [= <-]].
  - intros [= <-]. eapply normalise_index_Raise, Ej.
Qed.

Lemma cell_at_Raise g r c e : cell_at g r c = Raise e -> e = IndexError.
Proof.
  unfold cell_at.
  destruct (list_getitem (cells g) r) as [line | e'] eqn:El; simpl.
  - apply list_getitem_Raise.
  - intros [= <-]. eapply list_getitem_Raise, El.
Qed.

Lemma active_count_Raise g gen :
  Forall (fun y => exists r c, y = Ok (r, c)) gen ->
  forall acc e, active_count g gen acc = Raise e -> e = IndexError.
Proof.
  induction 1 as [| y gen (r & c & ->) _ IH]; intros acc e; simpl.
  - discriminate.
  - destruct (cell_at g r c) as [v | e'] eqn:Ev; simpl.
    + apply IH.
    + intros [= <-]. eapply cell_at_Raise, Ev.
Qed.

Lemma next_cell_Raise g row col e :
  0 < height g -> 0 < width g ->
  next_cell g row col = Raise e -> e = IndexError.
Proof.
  intros Hh Hw. unfold next_cell.
  destruct (cell_at g row col) as [current | e'] eqn:Ec; cbn [bind].
  - destruct (active_count g (neighbor_coords g row col) 0)
      as [n | e'] eqn:En; cbn [bind].
    + rewrite next_state_cases. discriminate.
    + intros [= <-]. eapply active_count_Raise; [| exact En].
      eapply Forall_impl; [| apply neighbor_coords_in_grid; assumption].
      intros y (r & c & -> & _). now exists r, c.
  - intros [= <-]. eapply cell_at_Raise, Ec.
Qed.

Lemma step_Raise g e : step g = Raise e -> e = IndexError.
Proof.
  unfold step. intros H.
  destruct (mapM _ (range (height g))) as [next_cells | e'] eqn:Em;
    simpl in H; [discriminate H |].
  injection H as <-.
  apply mapM_Raise in Em as (row & Hrow & Em).
  apply mapM_Raise in Em as (col & Hcol & Em).
  apply In_range in Hrow, Hcol.
  eapply next_cell_Raise; [| | exact Em]; lia.
Qed.

(** X1. Although [_wrap] divides by the grid's dimensions, [step] never
    raises [ZeroDivisionError]: whatever the grid, the only exception it
    can raise is [IndexError]. *)
Theorem step_only_raises_IndexError g e :
  step g = Raise e -> e = IndexError.
Proof. apply step_Raise. Qed.

Lemma step_only_raises_IndexError_witness :
  step (mkState 1 2 [[1]]) = Raise IndexError /\ IndexError = IndexError.
Proof.
  assert (H : step (mkState 1 2 [[1]]) = Raise IndexError) by reflexivity.
  split; [exact H |].
  exact (step_only_raises_IndexError (mkState 1 2 [[1]]) IndexError H).
Defined.



Lemma wrap_there_and_back x m :
  0 <= x < m ->
  ((x - 1) mod m + 1) mod m = x /\ ((x + 1) mod m - 1) mod m = x.
Proof.
  intros H. split.
  - rewrite Z.add_mod_idemp_l by lia.
    replace (x - 1 + 1) with x by lia. now apply Z.mod_small.
  - rewrite Zminus_mod_idemp_l.
    replace (x + 1 - 1) with x by lia. now apply Z.mod_small.
Qed.

(** X3. The neighbourhood is symmetric on the torus: when [(r, c)] is a
    neighbour of a coordinate of the grid, that coordinate is a neighbour
    of [(r, c)]. *)
Theorem neighbor_coords_symmetric g row col r c :
  0 < height g -> 0 < width g -> in_grid g row col ->
  In (Ok (r, c)) (neighbor_coords g row col) ->
  In (Ok (row, col)) (neighbor_coords g r c).
Proof.
  intros Hh Hw (Hr & Hc) Hin.
  rewrite neighbor_coords_positive in * by assumption.
  assert (Er : row mod height g = row) by now apply Z.mod_small.
  assert (Ec : col mod width g = col) by now apply Z.mod_small.
  destruct (wrap_there_and_back row (height g) Hr) as (Rn & Rs).
  destruct (wrap_there_and_back col (width g) Hc) as (Cw & Ce).
  rewrite Er, Ec in Hin.
  simpl in Hin.
  destruct Hin as [[= <- <-] | [[= <- <-] | [[= <- <-] | [[= <- <-] | []]]]].
  - right. left. now rewrite Rn, Ec.
  - left. now rewrite Rs, Ec.
  - right. right. right. left. now rewrite Cw, Er.
  - right. right. left. now rewrite Ce, Er.
Qed.

Lemma neighbor_coords_symmetric_witness :
  In (Ok (0, 2)) (neighbor_coords sample_grid 0 0).
Proof.
  apply (neighbor_coords_symmetric sample_grid 0 2 0 0).
  - simpl. lia.
  - simpl. lia.
  - unfold in_grid. simpl. lia.
  - simpl. right. right. right. left. reflexivity.
Defined.

(** *** The grids on which [step] succeeds *)

Lemma list_getitem_Ok_nonneg {A : Type} (l : list A) i x :
  0 <= i -> list_getitem l i = Ok x ->
  in_bounds l i /\ nth_error l (Z.to_nat i) = Some x.
Proof.
  intros Hi H. unfold list_getitem in H.
  apply bind_Ok_inv in H as (j & Hj & H).
  unfold normalise_index in Hj. cbv zeta in Hj.
  assert (E : (i <? 0) = false) by (apply Z.ltb_ge; lia).
  rewrite E in Hj. cbv iota in Hj. rewrite E in Hj. simpl in Hj.
  destruct (Z.leb_spec (Z.of_nat (length l)) i); [discriminate Hj |].
  injection Hj as <-.
  destruct (nth_error l (Z.to_nat i)) as [y |]; [| discriminate H].
  injection H as <-. split; [unfold in_bounds; lia | reflexivity].
Qed.

Lemma cell_at_covers g r c :
  covers g -> in_grid g r c -> exists v, cell_at g r c = Ok v.
Proof.
  intros (Hrows & Hcols) (Hr & Hc).
  destruct (list_getitem_in_bounds (cells g) r) as (line & El & Gl);
    [unfold in_bounds; lia |].
  specialize (Hcols r line Hr El).
  destruct (list_getitem_in_bounds line c) as (v & _ & Gv);
    [unfold in_bounds; lia |].
  exists v. unfold cell_at. now rewrite Gl.
Qed.

Lemma next_cell_covers g row col :
  0 < height g -> 0 < width g -> covers g -> in_grid g row col ->
  exists v, next_cell g row col = Ok v.
Proof.
  intros Hh Hw Hg Hrc.
  destruct (cell_at_covers g row col Hg Hrc) as (current & Hcur).
  assert (Hvs : exists vs,
             Forall2 (yields_value g) (neighbor_coords g row col) vs).
  { pose proof (neighbor_coords_in_grid g row col Hh Hw) as H.
    induction H as [| y gen (r & c & -> & Hin) _ (vs & IH)].
    - exists []. constructor.
    - destruct (cell_at_covers g r c Hg Hin) as (v & Hv).
      exists (v :: vs). constructor; [now exists r, c | exact IH]. }
  destruct Hvs as (vs & Hvs).
  unfold next_cell. rewrite Hcur. cbn [bind].
  rewrite (active_count_values g _ vs Hvs 0). cbn [bind].
  rewrite next_state_cases. eauto.
Qed.

Lemma step_covers g :
  0 < height g -> 0 < width g -> covers g -> exists g', step g = Ok g'.
Proof.
  intros Hh Hw Hg. unfold step.
  destruct (mapM_total
              (fun row => mapM (fun col => next_cell g row col)
                               (range (width g)))
              (range (height g))) as (next_cells & ->).
  - intros row Hrow. apply In_range in Hrow.
    apply mapM_total. intros col Hcol. apply In_range in Hcol.
    now apply next_cell_covers.
  - simpl. eauto.
Qed.

Lemma step_Ok_covers g g' :
  0 < height g -> 0 < width g -> step g = Ok g' -> covers g.
Proof.
  intros Hh Hw Hstep.
  assert (Hread : forall r, 0 <= r < height g ->
            exists line, nth_error (cells g) (Z.to_nat r) = Some line /\
                         in_bounds (cells g) r /\
                         width g <= Z.of_nat (length line)).
  { intros r Hr.
    destruct (step_cell g g' r (width g - 1) Hstep) as (v & Hv & _);
      [unfold in_grid; lia |].
    unfold next_cell in Hv. apply bind_Ok_inv in Hv as (current & Hc & _).
    unfold cell_at in Hc. apply bind_Ok_inv in Hc as (line & Hl & Hc).
    apply list_getitem_Ok_nonneg in Hl as (Bl & El); [| lia].
    apply list_getitem_Ok_nonneg in Hc as (Bc & _); [| lia].
    exists line. unfold in_bounds in *. repeat split; try assumption; lia. }
  split.
  - destruct (Hread (height g - 1)) as (_ & _ & B & _); [lia |].
    unfold in_bounds in B. lia.
  - intros r line Hr El.
    destruct (Hread r Hr) as (line' & El' & _ & Hw').
    congruence.
Qed.

(** X4. With positive dimensions, [step] returns a grid exactly when the
    cells hold at least [height] rows and each of the first [height] rows
    holds at least [width] values (rows and values beyond that are never
    read); on every other grid it raises [IndexError]. *)
Theorem step_succeeds_iff g :
  0 < height g -> 0 < width g ->
  ((exists g', step g = Ok g') <-> covers g) /\
  (step g = Raise IndexError <-> ~ covers g).
Proof.
  intros Hh Hw. split; split.
  - intros (g' & H). eapply step_Ok_covers; eassumption.
  - now apply step_covers.
  - intros H Hc. destruct (step_covers g Hh Hw Hc) as (g' & Hg'). congruence.
  - intros Hn. destruct (step g) as [g' | e] eqn:E.
    + exfalso. apply Hn. eapply step_Ok_covers; eassumption.
    + now rewrite (step_Raise g e E).
Qed.

Lemma step_succeeds_iff_witness :
  (exists g', step (mkState 2 1 [[1; 5; 9]; [0]]) = Ok g') /\
  step (mkState 2 2 [[1; 5; 9]; [0]]) = Raise IndexError.
Proof.
  split.
  - apply (proj1 (step_succeeds_iff (mkState 2 1 [[1; 5; 9]; [0]])
                    ltac:(simpl; lia) ltac:(simpl; lia))).
    split; simpl; [lia |].
    intros r line Hr. replace r with 0 by lia. simpl.
    intros [= <-]. simpl. lia.
  - reflexivity.
Defined.

Lemma mapM_const {A B : Type} (b : B) (xs : list A) :
  mapM (fun _ => Ok b) xs = Ok (repeat b (length xs)).
Proof.
  induction xs as [| x xs IH]; simpl; [reflexivity |].
  now rewrite IH.
Qed.

(** X5. Dimensions that are not positive: with [height <= 0], [step]
    returns a grid without rows, and with [width <= 0] a grid of
    [height] empty rows; in both cases the input cells are never read, so
    nothing is raised whatever they hold. *)
Theorem step_degenerate_dimensions g :
  (height g <= 0 -> step g = Ok (mkState (width g) (height g) [])) /\
  (width g <= 0 ->
   step g = Ok (mkState (width g) (height g)
                        (repeat [] (Z.to_nat (height g))))).
Proof.
  split; intros H; unfold step.
  - now rewrite (range_nonpositive (height g)) by exact H.
  - rewrite (range_nonpositive (width g)) by exact H. cbn [mapM].
    now rewrite mapM_const, length_range.
Qed.

Lemma step_degenerate_dimensions_witness :
  step (mkState 3 0 [[1; 2]; [9]]) = Ok (mkState 3 0 []) /\
  step (mkState (-1) 2 [[1; 2]; [9]]) = Ok (mkState (-1) 2 [[]; []]).
Proof.
  split.
  - apply (proj1 (step_degenerate_dimensions (mkState 3 0 [[1; 2]; [9]]))).
    simpl. lia.
  - apply (proj2 (step_degenerate_dimensions (mkState (-1) 2 [[1; 2]; [9]]))).
    simpl. lia.
Defined.

(** *** A uniform grid *)

Lemma Forall2_repeat_r {A B : Type} (R : A -> B -> Prop) (b : B) xs :
  (forall x, In x xs -> R x b) -> Forall2 R xs (repeat b (length xs)).
Proof.
  induction xs as [| x xs IH]; intros H; simpl; constructor.
  - apply H. now left.
  - apply IH. intros y Hy. apply H. now right.
Qed.

Lemma cell_at_uniform w h v r c :
  0 <= r < h -> 0 <= c < w -> cell_at (uniform w h v) r c = Ok v.
Proof.
  intros Hr Hc. unfold cell_at, uniform. simpl.
  rewrite (list_getitem_nth_error _ r (repeat v (Z.to_nat w)));
    [| lia | apply nth_error_repeat; lia].
  simpl. apply list_getitem_nth_error; [lia |].
  apply nth_error_repeat. lia.
Qed.

Lemma next_cell_uniform w h v row col :
  0 <= row < h -> 0 <= col < w ->
  next_cell (uniform w h v) row col =
    Ok (if ACTIVE_THRESHOLD <=? v then (v + 1) mod 7 else (v - 1) mod 7).
Proof.
  intros Hr Hc. unfold next_cell.
  rewrite cell_at_uniform by assumption. cbn [bind].
  assert (Hvs : Forall2 (yields_value (uniform w h v))
                        (neighbor_coords (uniform w h v) row col)
                        [v; v; v; v]).
  { change [v; v; v; v]
      with (repeat v (length (neighbor_coords (uniform w h v) row col))).
    apply Forall2_repeat_r. intros y Hy.
    pose proof (neighbor_coords_in_grid (uniform w h v) row col) as H.
    simpl in H. specialize (H ltac:(lia) ltac:(lia)).
    rewrite Forall_forall in H.
    destruct (H y Hy) as (r & c & -> & (Hr' & Hc')).
    exists r, c. split; [reflexivity |]. now apply cell_at_uniform. }
  rewrite (active_count_values _ _ _ Hvs 0). cbn [bind].
  rewrite next_state_cases. f_equal.
  unfold count_active_values. cbn [filter].
  destruct (ACTIVE_THRESHOLD <=? v); reflexivity.
Qed.

(** X6. A uniform grid stays uniform: when every cell of a grid with
    positive dimensions holds [v], one [step] yields the grid whose cells
    all hold [(v + 1) mod 7] if [v >= 4] (all four neighbours are active)
    and [(v - 1) mod 7] otherwise (none is). *)
Theorem step_uniform w h v :
  0 < w -> 0 < h ->
  step (uniform w h v) =
    Ok (uniform w h (if ACTIVE_THRESHOLD <=? v
                     then (v + 1) mod 7 else (v - 1) mod 7)).
Proof.
  intros Hw Hh. apply step_Ok_iff.
  split; [reflexivity |]. split; [reflexivity |].
  unfold stepped_cells, uniform. cbn [width height cells].
  rewrite <- (length_range h). apply Forall2_repeat_r.
  intros row Hrow. apply In_range in Hrow.
  rewrite <- (length_range w). apply Forall2_repeat_r.
  intros col Hcol. apply In_range in Hcol.
  rewrite !length_range. now apply (next_cell_uniform w h v).
Qed.

Lemma step_uniform_witness :
  step (uniform 3 2 6) = Ok (uniform 3 2 0) /\
  step (uniform 3 2 0) = Ok (uniform 3 2 6).
Proof.
  split.
  - apply (step_uniform 3 2 6); lia.
  - apply (step_uniform 3 2 0); lia.
Defined.

(** *** Composing runs *)

Lemma step_n_add a b :
  forall g, step_n (a + b) g = (g' <- step_n a g ;; step_n b g').
Proof.
  induction a as [| a IH]; intros g; simpl.
  - reflexivity.
  - destruct (step g) as [g1 | e]; simpl; [apply IH | reflexivity].
Qed.

(** X7. Runs compose: for [a >= 0] and [b >= 0], simulating [a + b]
    steps is simulating [a] steps and then [b] steps from the result, on
    every grid; an exception of the first run is the exception of the
    whole. *)
Theorem simulate_add g a b :
  0 <= a -> 0 <= b ->
  simulate g (a + b) = (g' <- simulate g a ;; simulate g' b).
Proof.
  intros Ha Hb. rewrite simulate_step_n.
  replace (Z.to_nat (a + b)) with (Z.to_nat a + Z.to_nat b)%nat by lia.
  rewrite step_n_add, <- simulate_step_n.
  destruct (simulate g a) as [g' | e]; simpl; [| reflexivity].
  now rewrite simulate_step_n.
Qed.

Lemma simulate_add_witness :
  simulate sample_grid (2 + 3) =
    (g' <- simulate sample_grid 2 ;; simulate g' 3).
Proof. apply (simulate_add sample_grid 2 3); lia. Defined.

(** *** The values that [render] accepts *)

Lemma mapM_Ok_iff_Forall {A B : Type} (f : A -> result B) (xs : list A) :
  (exists ys, mapM f xs = Ok ys) <-> Forall (fun x => exists y, f x = Ok y) xs.
Proof.
  split.
  - intros (ys & H). apply mapM_Ok_Forall2 in H.
    induction H as [| x y xs ys Hxy _ IH]; constructor; eauto.
  - intros H. apply mapM_total. now apply Forall_forall.
Qed.

Lemma palette_index_cases v :
  palette_index v <->
  (v = -7 \/ v = -6 \/ v = -5 \/ v = -4 \/ v = -3 \/ v = -2 \/ v = -1 \/
   v = 0 \/ v = 1 \/ v = 2 \/ v = 3 \/ v = 4 \/ v = 5 \/ v = 6).
Proof. unfold palette_index. simpl. lia. Qed.

Lemma str_getitem_palette_index v :
  (exists s, str_getitem PALETTE v = Ok s) <-> palette_index v.
Proof.
  split.
  - intros (s & H). unfold str_getitem in H.
    apply bind_Ok_inv in H as (j & Hj & _).
    unfold normalise_index in Hj. cbv zeta in Hj.
    unfold palette_index.
    change (Z.of_nat (String.length PALETTE)) with 7 in *.
    destruct (v <? 0) eqn:E1; cbv iota in Hj;
      match type of Hj with
      | (if ?b then _ else _) = _ =>
          destruct b eqn:E2; [discriminate Hj |]
      end;
      apply orb_false_iff in E2 as (E2 & E3);
      apply Z.ltb_ge in E2; apply Z.leb_gt in E3;
      [apply Z.ltb_lt in E1 | apply Z.ltb_ge in E1]; lia.
  - intros H. apply palette_index_cases in H.
    repeat (destruct H as [-> | H]); try subst v; eexists; reflexivity.
Qed.

Lemma str_getitem_Raise s v e : str_getitem s v = Raise e -> e = IndexError.
Proof.
  unfold str_getitem.
  destruct (normalise_index _ v) as [j | e'] eqn:Ej; simpl.
  - destruct (String.get j s); [discriminate | now intros [= <-]].
  - intros [= <-]. eapply normalise_index_Raise, Ej.
Qed.

Lemma render_line_Ok_iff row :
  (exists line,
     (chars <- mapM (fun state => str_getitem PALETTE state) row ;;
      Ok (String.concat "" chars)) = Ok line) <->
  Forall palette_index row.
Proof.
  split.
  - intros (line & H). apply bind_Ok_inv in H as (chars & H & _).
    assert (H' : exists ys, mapM (fun state => str_getitem PALETTE state) row
                            = Ok ys) by eauto.
    apply mapM_Ok_iff_Forall in H'.
    eapply Forall_impl; [| exact H']. intros v. apply str_getitem_palette_index.
  - intros H.
    destruct (proj2 (mapM_Ok_iff_Forall
                       (fun state => str_getitem PALETTE state) row))
      as (chars & ->).
    + eapply Forall_impl; [| exact H].
      intros v. apply str_getitem_palette_index.
    + simpl. eauto.
Qed.

(** X8. [render] returns a string exactly when every cell value lies in
    [-7, 7): the palette is indexed like any Python string, so a value
    from -7 to -1 is accepted and counts from the end of the palette.  On
    any other grid [render] raises [IndexError]. *)
Theorem render_succeeds_iff g :
  ((exists out, render g = Ok out) <->
   Forall (Forall palette_index) (cells g)) /\
  (forall e, render g = Raise e -> e = IndexError).
Proof.
  split; [split |].
  - intros (out & H). unfold render in H.
    apply bind_Ok_inv in H as (lines & H & _).
    assert (H' : exists ys, mapM (fun row =>
                   chars <- mapM (fun state => str_getitem PALETTE state) row ;;
                   Ok (String.concat "" chars)) (cells g) = Ok ys) by eauto.
    apply mapM_Ok_iff_Forall in H'.
    eapply Forall_impl; [| exact H']. intros row. apply render_line_Ok_iff.
  - intros H. unfold render.
    destruct (proj2 (mapM_Ok_iff_Forall (fun row =>
                chars <- mapM (fun state => str_getitem PALETTE state) row ;;
                Ok (String.concat "" chars)) (cells g))) as (lines & ->).
    + eapply Forall_impl; [| exact H]. intros row. apply render_line_Ok_iff.
    + simpl. eauto.
  - intros e H. unfold render in H.
    destruct (mapM _ (cells g)) as [lines | e'] eqn:Em; simpl in H;
      [discriminate H |].
    injection H as <-.
    apply mapM_Raise in Em as (row & _ & Em).
    destruct (mapM _ row) as [chars | e''] eqn:Er; simpl in Em;
      [discriminate Em |].
    injection Em as <-.
    apply mapM_Raise in Er as (v & _ & Ev).
    eapply str_getitem_Raise, Ev.
Qed.

Lemma mapM_map_ext {A B C : Type} (f : A -> result B) (f' : C -> result B)
  (h : A -> C) (xs : list A) :
  Forall (fun x => f x = f' (h x)) xs -> mapM f xs = mapM f' (map h xs).
Proof.
  induction 1 as [| x xs Hx _ IH]; simpl; [reflexivity |].
  now rewrite Hx, IH.
Qed.

(** X9. A negative cell value is drawn like the band it is congruent to:
    when every value lies in [-7, 7), [render] returns the same text as
    on the grid with every value reduced modulo 7 (so -1 is drawn as 6,
    with [@]). *)
Theorem render_negative_values g :
  Forall (Forall palette_index) (cells g) ->
  render g = render (fold_bands g).
Proof.
  intros H. unfold render, fold_bands. cbn [cells].
  f_equal. apply mapM_map_ext.
  eapply Forall_impl; [| exact H]. intros row Hrow. cbv beta.
  f_equal. apply mapM_map_ext.
  eapply Forall_impl; [| exact Hrow]. intros v Hv. cbv beta.
  apply palette_index_cases in Hv.
  repeat (destruct Hv as [-> | Hv]); try subst v; reflexivity.
Qed.

Lemma render_negative_values_witness :
  render (mkState 2 1 [[-1; 3]]) = render (mkState 2 1 [[6; 3]]).
Proof.
  apply (render_negative_values (mkState 2 1 [[-1; 3]])).
  unfold palette_index. simpl. repeat constructor; lia.
Defined.

Lemma render_succeeds_iff_witness :
  exists out, render (mkState 2 1 [[-7; 6]]) = Ok out.
Proof.
  apply (proj1 (render_succeeds_iff (mkState 2 1 [[-7; 6]]))).
  unfold palette_index. simpl. repeat constructor; lia.
Defined.

(** *** The text determines the grid *)

Lemma palette_distinct a b :
  in_band a -> in_band b ->
  String.get (Z.to_nat a) PALETTE = String.get (Z.to_nat b) PALETTE -> a = b.
Proof.
  unfold in_band, STATE_RANGE. intros Ha Hb.
  assert (Ea : a = 0 \/ a = 1 \/ a = 2 \/ a = 3 \/ a = 4 \/ a = 5 \/ a = 6)
    by lia.
  assert (Eb : b = 0 \/ b = 1 \/ b = 2 \/ b = 3 \/ b = 4 \/ b = 5 \/ b = 6)
    by lia.
  clear Ha Hb.
  repeat (destruct Ea as [-> | Ea]); try subst a;
    repeat (destruct Eb as [-> | Eb]); try subst b;
    simpl; intros H; try reflexivity; discriminate H.
Qed.

Lemma renders_row_cons_inv v row line :
  renders_row (v :: row) line ->
  exists c line',
    line = String c line' /\
    String.get (Z.to_nat v) PALETTE = Some c /\
    renders_row row line'.
Proof.
  intros (Hlen & Hfree & Hget).
  destruct line as [| c line']; [discriminate Hlen |].
  exists c, line'. split; [reflexivity |]. split.
  - symmetry. apply (Hget 0%nat v). reflexivity.
  - split; [simpl in Hlen; congruence |]. split; [apply Hfree |].
    intros i w Hw. apply (Hget (S i) w). exact Hw.
Qed.

Lemma renders_row_injective row1 :
  forall row2 line,
    Forall in_band row1 -> Forall in_band row2 ->
    renders_row row1 line -> renders_row row2 line -> row1 = row2.
Proof.
  induction row1 as [| v1 row1 IH]; intros row2 line H1 H2 R1 R2.
  - destruct R1 as (L1 & _). destruct R2 as (L2 & _).
    destruct row2; [reflexivity |]. simpl in *. congruence.
  - destruct row2 as [| v2 row2].
    + destruct R1 as (L1 & _). destruct R2 as (L2 & _).
      simpl in *. congruence.
    + apply renders_row_cons_inv in R1 as (c1 & l1 & -> & G1 & R1).
      apply renders_row_cons_inv in R2 as (c2 & l2 & [= <- <-] & G2 & R2).
      inversion H1; inversion H2; subst.
      f_equal.
      * apply palette_distinct; try assumption. congruence.
      * eapply IH; eassumption.
Qed.

Lemma renders_rows_injective rows1 :
  forall rows2 lines,
    Forall (Forall in_band) rows1 -> Forall (Forall in_band) rows2 ->
    Forall2 renders_row rows1 lines -> Forall2 renders_row rows2 lines ->
    rows1 = rows2.
Proof.
  induction rows1 as [| r1 rows1 IH]; intros rows2 lines H1 H2 R1 R2.
  - inversion R1; subst. inversion R2; subst. reflexivity.
  - inversion R1 as [| ? line ? lines' Hr1 R1']; subst.
    inversion R2 as [| r2 ? rows2' ? Hr2 R2']; subst.
    inversion H1; inversion H2; subst.
    f_equal.
    + eapply renders_row_injective; eassumption.
    + eapply IH; eassumption.
Qed.

Lemma render_well_formed_lines g :
  well_formed g ->
  exists lines,
    render g = Ok (String.concat newline lines) /\
    Forall2 renders_row (cells g) lines /\
    split_lines (String.concat newline lines) = lines.
Proof.
  intros (Hrect & Hrange).
  destruct (render_Ok g Hrange) as (lines & Hrender & Hall).
  exists lines. split; [exact Hrender |]. split; [exact Hall |].
  apply split_lines_concat.
  - intros ->. apply Forall2_length in Hall.
    pose proof (rect_rows g Hrect). pose proof (rect_height g Hrect).
    simpl in Hall. lia.
  - eapply Forall2_Forall_r with (P := fun _ => True);
      [| exact Hall | apply Forall_forall; trivial].
    now intros row line _ (_ & Hfree & _).
Qed.

Lemma well_formed_dimensions g :
  well_formed g ->
  height g = Z.of_nat (length (cells g)) /\
  width g = Z.of_nat (length (hd [] (cells g))).
Proof.
  intros (Hrect & _).
  pose proof (rect_rows g Hrect) as Hr.
  pose proof (rect_height g Hrect) as Hh.
  pose proof (rect_cols g Hrect) as Hc.
  split; [lia |].
  destruct (cells g) as [| row rows]; [simpl in Hr; lia |].
  inversion Hc; subst. simpl. lia.
Qed.

(** X10. The rendered text determines the grid: two well-formed grids
    that [render] to the same string are the same grid (the seven palette
    characters are distinct, none is the newline, and a well-formed grid
    has no empty line). *)
Theorem render_injective g1 g2 :
  well_formed g1 -> well_formed g2 ->
  render g1 = render g2 -> g1 = g2.
Proof.
  intros W1 W2 H.
  destruct (render_well_formed_lines g1 W1) as (l1 & R1 & A1 & S1).
  destruct (render_well_formed_lines g2 W2) as (l2 & R2 & A2 & S2).
  assert (El : l1 = l2).
  { rewrite R1, R2 in H. injection H as H.
    rewrite <- S1, <- S2. now rewrite H. }
  subst l2.
  assert (Ec : cells g1 = cells g2).
  { eapply renders_rows_injective; try eassumption; [apply W1 | apply W2]. }
  destruct (well_formed_dimensions g1 W1) as (Eh1 & Ew1).
  destruct (well_formed_dimensions g2 W2) as (Eh2 & Ew2).
  destruct g1 as [w1 h1 c1], g2 as [w2 h2 c2]. simpl in *. subst c2.
  f_equal; congruence.
Qed.

Lemma render_injective_witness :
  well_formed sample_grid /\ sample_grid = sample_grid.
Proof.
  split; [exact sample_grid_well_formed |].
  apply (render_injective sample_grid sample_grid
           sample_grid_well_formed sample_grid_well_formed).
  reflexivity.
Defined.

(** *** The size of the text *)

Lemma string_length_append (s1 s2 : string) :
  String.length (s1 ++ s2) = (String.length s1 + String.length s2)%nat.
Proof. induction s1 as [| c s1 IH]; simpl; [reflexivity | now rewrite IH]. Qed.

Lemma concat_newline_length (w : nat) (lines : list string) :
  Forall (fun line => String.length line = w) lines ->
  lines <> [] ->
  S (String.length (String.concat newline lines)) = (length lines * S w)%nat.
Proof.
  induction 1 as [| line lines Hline Hlines IH]; intros Hne.
  - contradiction.
  - destruct lines as [| line' lines'].
    + simpl. lia.
    + change (String.concat newline (line :: line' :: lines'))
        with (line ++ newline ++ String.concat newline (line' :: lines'))%string.
      rewrite !string_length_append.
      specialize (IH ltac:(discriminate)).
      change (String.length newline) with 1%nat.
      change (length (line :: line' :: lines'))
        with (S (length (line' :: lines'))).
      lia.
Qed.

(** X11. The text of a well-formed grid has [height * (width + 1) - 1]
    characters: [width] per line and one newline between consecutive
    lines. *)
Theorem render_length g :
  well_formed g ->
  exists out,
    render g = Ok out /\
    Z.of_nat (String.length out) = height g * (width g + 1) - 1.
Proof.
  intros (Hrect & Hrange).
  destruct (render_Ok g Hrange) as (lines & Hrender & Hall).
  exists (String.concat newline lines). split; [exact Hrender |].
  pose proof (rect_rows g Hrect) as Hr.
  pose proof (rect_height g Hrect) as Hh.
  pose proof (rect_width g Hrect) as Hw.
  pose proof (Forall2_length Hall) as Hl.
  assert (Hlines : Forall (fun line =>
                             String.length line = Z.to_nat (width g)) lines).
  { eapply Forall2_Forall_r; [| exact Hall | exact (rect_cols g Hrect)].
    intros row line Hrow (Hlen & _). simpl in Hrow. lia. }
  assert (Hne : lines <> []) by (intros ->; simpl in Hl; lia).
  pose proof (concat_newline_length _ lines Hlines Hne) as Hc.
  nia.
Qed.

Lemma render_length_witness :
  exists out,
    render sample_grid = Ok out /\ Z.of_nat (String.length out) = 7.
Proof.
  exact (render_length sample_grid sample_grid_well_formed).
Defined.

(** *** The random grid *)

Lemma lcg_contract : rng_contract lcg.
Proof.
  intros n s Hn. simpl. now apply Z.mod_pos_bound.
Qed.

Lemma draw_each_Forall {S A : Type} (P : A -> Prop) (draw : S -> A * S)
  (xs : list Z) :
  (forall s, P (fst (draw s))) ->
  forall s, length (fst (draw_each xs draw s)) = length xs /\
            Forall P (fst (draw_each xs draw s)).
Proof.
  intros Hdraw. induction xs as [| x xs IH]; intros s; simpl.
  - split; [reflexivity | constructor].
  - pose proof (Hdraw s) as Ha. destruct (draw s) as [a s1].
    specialize (IH s1). destruct (draw_each xs draw s1) as [rest s2].
    simpl in *. destruct IH as (Hl & Hf).
    split; [now rewrite Hl | now constructor].
Qed.

Lemma random_fields R w h seed :
  width (random R w h seed) = w /\
  height (random R w h seed) = h /\
  cells (random R w h seed) =
    fst (draw_each (range h)
                   (fun s => draw_each (range w) (randrange R STATE_RANGE) s)
                   (Random R seed)).
Proof.
  unfold random. destruct (draw_each (range h) _ _) as [cs s].
  repeat split.
Qed.

Lemma random_shaped R w h seed :
  rng_contract R ->
  shaped (random R w h seed) /\ cells_in_range (random R w h seed).
Proof.
  intros HR.
  destruct (random_fields R w h seed) as (Ew & Eh & Ec).
  unfold shaped, cells_in_range. rewrite Ew, Eh, Ec.
  pose proof (draw_each_Forall
                (fun line => length line = Z.to_nat w /\ Forall in_band line)
                (fun s => draw_each (range w) (randrange R STATE_RANGE) s)
                (range h)) as H.
  destruct (H ltac:(intros s;
                    pose proof (draw_each_Forall in_band
                                  (randrange R STATE_RANGE) (range w)
                                  ltac:(intros s'; apply HR; reflexivity) s)
                      as (Hl & Hf);
                    rewrite length_range in Hl; now split)
              (Random R seed)) as (Hlen & Hall).
  rewrite length_range in Hlen.
  split; [split |]; [exact Hlen | |];
    (eapply Forall_impl; [| exact Hall]); now intros line (Hl & Hf).
Qed.

Lemma shaped_rectangular g :
  0 < width g -> 0 < height g -> shaped g -> rectangular g.
Proof.
  intros Hw Hh (Hrows & Hcols). constructor; try assumption.
  - lia.
  - eapply Forall_impl; [| exact Hcols]. simpl. intros line Hl. lia.
Qed.

(** X12. A random grid is a valid grid: with a generator that honours
    the contract of [randrange] and positive dimensions, [random] returns
    a well-formed grid of the requested width and height, which
    [simulate] then steps into a well-formed grid for any step count and
    which [render] accepts. *)
Theorem random_well_formed R w h seed steps :
  rng_contract R -> 0 < w -> 0 < h ->
  width (random R w h seed) = w /\
  height (random R w h seed) = h /\
  well_formed (random R w h seed) /\
  exists g' text,
    simulate (random R w h seed) steps = Ok g' /\
    well_formed g' /\ render g' = Ok text.
Proof.
  intros HR Hw Hh.
  destruct (random_fields R w h seed) as (Ew & Eh & _).
  destruct (random_shaped R w h seed HR) as (Hs & Hr).
  assert (Hwf : well_formed (random R w h seed)).
  { split; [| exact Hr]. apply shaped_rectangular; [lia | lia | exact Hs]. }
  split; [exact Ew |]. split; [exact Eh |]. split; [exact Hwf |].
  destruct (step_n_well_formed (Z.to_nat steps) _ Hwf) as (g' & Hn & Hg' & _).
  destruct (render_Ok g' (proj2 Hg')) as (lines & Hrender & _).
  exists g', (String.concat newline lines).
  rewrite simulate_step_n.
  split; [exact Hn |]. split; [exact Hg' | exact Hrender].
Qed.

Lemma random_well_formed_witness :
  well_formed (random lcg 4 3 (Some 1)) /\
  exists g' text,
    simulate (random lcg 4 3 (Some 1)) 3 = Ok g' /\
    well_formed g' /\ render g' = Ok text.
Proof.
  destruct (random_well_formed lcg 4 3 (Some 1) 3 lcg_contract
              ltac:(lia) ltac:(lia)) as (_ & _ & H1 & H2).
  split; [exact H1 | exact H2].
Defined.

Lemma draw_each_draws R (xs : list Z) :
  forall s k,
    draws R (length xs + k) s =
    fst (draw_each xs (randrange R STATE_RANGE) s) ++
    draws R k (snd (draw_each xs (randrange R STATE_RANGE) s)).
Proof.
  induction xs as [| x xs IH]; intros s k; simpl.
  - reflexivity.
  - destruct (randrange R STATE_RANGE s) as [v s1].
    rewrite (IH s1 k).
    destruct (draw_each xs (randrange R STATE_RANGE) s1) as [rest s2].
    reflexivity.
Qed.

Lemma draw_rows_draws R (xs ys : list Z) :
  forall s,
    concat (fst (draw_each ys
                   (fun s' => draw_each xs (randrange R STATE_RANGE) s') s)) =
    draws R (length ys * length xs) s.
Proof.
  induction ys as [| y ys IH]; intros s; simpl.
  - reflexivity.
  - rewrite draw_each_draws.
    destruct (draw_each xs (randrange R STATE_RANGE) s) as [line s1].
    cbn [fst snd]. rewrite <- (IH s1).
    destruct (draw_each ys _ s1) as [rest s2]. reflexivity.
Qed.

(** X13. The draws fill the grid in row-major order: read row after
    row, the cells of [random width height seed] are the first draws of
    [randrange STATE_RANGE] from the generator seeded with [seed], one
    per cell, in the order they were drawn. *)
Theorem random_row_major R w h seed :
  concat (cells (random R w h seed)) =
  draws R (Z.to_nat h * Z.to_nat w) (Random R seed).
Proof.
  destruct (random_fields R w h seed) as (_ & _ & ->).
  rewrite draw_rows_draws. now rewrite !length_range.
Qed.

(** *** The command line driver *)

Lemma shaped_covers g : shaped g -> covers g.
Proof.
  intros (Hrows & Hcols). split; [lia |].
  intros r line _ El. rewrite Forall_forall in Hcols.
  rewrite (Hcols line (nth_error_In _ _ El)). lia.
Qed.

Lemma step_shaped g :
  shaped g -> cells_in_range g ->
  exists g', step g = Ok g' /\ shaped g' /\ cells_in_range g'.
Proof.
  intros Hs Hr.
  assert (Hok : exists g', step g = Ok g').
  { destruct (Z.ltb_spec 0 (height g)) as [Hh | Hh].
    - destruct (Z.ltb_spec 0 (width g)) as [Hw | Hw].
      + apply step_covers; try assumption. now apply shaped_covers.
      + unfold step. rewrite (range_nonpositive (width g)) by exact Hw.
        cbn [mapM]. rewrite mapM_const. simpl. eauto.
    - unfold step. rewrite (range_nonpositive (height g)) by exact Hh.
      simpl. eauto. }
  destruct Hok as (g' & Hstep). exists g'. split; [exact Hstep |].
  split; [| eapply step_cells_in_range; eassumption].
  apply step_Ok_iff in Hstep as (Ew & Eh & Hc).
  apply stepped_cells_shape in Hc. unfold shaped. now rewrite Ew, Eh.
Qed.

Lemma step_n_S_Ok n g g1 g' :
  step g = Ok g1 -> step_n n g1 = Ok g' -> step_n (S n) g = Ok g'.
Proof. intros H1 Hn. simpl. now rewrite H1. Qed.

Lemma frames_loop_finishes indices :
  forall g out,
    shaped g -> cells_in_range g ->
    exists frames,
      frames_loop indices g out = Finished (out ++ frames) /\
      length frames = length indices /\
      forall i index,
        nth_error indices i = Some index ->
        exists g' text,
          step_n (S i) g = Ok g' /\ render g' = Ok text /\
          nth_error frames i = Some (frame_text index text).
Proof.
  induction indices as [| index0 rest IH]; intros g out Hs Hr.
  - exists []. split; [simpl; now rewrite app_nil_r |].
    split; [reflexivity |]. intros [| i] index H; discriminate H.
  - destruct (step_shaped g Hs Hr) as (g1 & Hstep & Hs1 & Hr1).
    destruct (render_Ok g1 Hr1) as (lines & Hrender & _).
    destruct (IH g1 (out ++ [frame_text index0 (String.concat newline lines)])
                 Hs1 Hr1) as (frames & Hloop & Hlen & Hnth).
    exists (frame_text index0 (String.concat newline lines) :: frames).
    split; [| split].
    + cbn [frames_loop]. rewrite Hstep, Hrender, Hloop.
      now rewrite <- app_assoc.
    + simpl. now rewrite Hlen.
    + intros [| i] index H; simpl in H.
      * injection H as <-. exists g1, (String.concat newline lines).
        split; [simpl; now rewrite Hstep |]. split; [exact Hrender |].
        reflexivity.
      * destruct (Hnth i index H) as (g' & text & Hn & Ht & Hf).
        exists g', text. split; [| split; assumption].
        eapply step_n_S_Ok; eassumption.
Qed.

Lemma length_range_from a b : length (range_from a b) = Z.to_nat (b - a).
Proof. unfold range_from. now rewrite length_map, length_seq. Qed.

Lemma nth_error_range_from a b i :
  (i < Z.to_nat (b - a))%nat ->
  nth_error (range_from a b) i = Some (a + Z.of_nat i).
Proof.
  intros Hi. unfold range_from. rewrite nth_error_map, nth_error_seq.
  destruct (Nat.ltb_spec i (Z.to_nat (b - a))); [reflexivity | lia].
Qed.

Lemma step_n_shaped n :
  forall g, shaped g -> cells_in_range g ->
  exists g', step_n n g = Ok g' /\ cells_in_range g'.
Proof.
  induction n as [| n IH]; intros g Hs Hr; simpl.
  - now exists g.
  - destruct (step_shaped g Hs Hr) as (g1 & -> & Hs1 & Hr1). simpl.
    now apply IH.
Qed.

Lemma run_cli_final R w h steps seed :
  rng_contract R ->
  exists g' text,
    simulate (random R w h (Some seed)) steps = Ok g' /\
    render g' = Ok text /\
    _run_cli R (mkArgs w h steps seed false) = Finished [text].
Proof.
  intros HR.
  destruct (random_shaped R w h (Some seed) HR) as (Hs & Hr).
  destruct (step_n_shaped (Z.to_nat steps) _ Hs Hr) as (g' & Hn & Hr').
  destruct (render_Ok g' Hr') as (lines & Hrender & _).
  exists g', (String.concat newline lines).
  rewrite simulate_step_n. split; [exact Hn |]. split; [exact Hrender |].
  unfold _run_cli. cbn [arg_frames arg_width arg_height arg_seed arg_steps].
  now rewrite simulate_step_n, Hn, Hrender.
Qed.

(** X14. The driver never ends in an exception: with a generator that
    honours the contract of [randrange], for all integer arguments
    (dimensions and step counts that are zero or negative included),
    [_run_cli] runs to its end; it prints once without [--frames], and
    once plus once per step with it. *)
Theorem run_cli_finishes R args :
  rng_contract R ->
  exists out,
    _run_cli R args = Finished out /\
    length out = if arg_frames args then S (Z.to_nat (arg_steps args))
                 else 1%nat.
Proof.
  intros HR. destruct args as [w h steps seed frames].
  cbn [arg_frames arg_steps]. destruct frames.
  - destruct (random_shaped R w h (Some seed) HR) as (Hs & Hr).
    destruct (render_Ok _ Hr) as (lines & Hrender & _).
    destruct (frames_loop_finishes (range_from 1 (steps + 1)) _
                [("Initial state:" ++ newline
                  ++ String.concat newline lines)%string] Hs Hr)
      as (frames & Hloop & Hlen & _).
    eexists. split.
    + unfold _run_cli.
      cbn [arg_frames arg_width arg_height arg_seed arg_steps].
      rewrite Hrender. exact Hloop.
    + rewrite length_app, Hlen, length_range_from. simpl. f_equal. lia.
  - destruct (run_cli_final R w h steps seed HR) as (g' & text & _ & _ & H).
    exists [text]. split; [exact H | reflexivity].
Qed.

Lemma run_cli_finishes_witness :
  exists out,
    _run_cli lcg (mkArgs 0 (-2) (-1) 7 true) = Finished out /\
    length out = 1%nat.
Proof.
  exact (run_cli_finishes lcg (mkArgs 0 (-2) (-1) 7 true) lcg_contract).
Defined.

(** X15. The frames are the runs: with [--frames], the first text
    printed is the initial grid under the heading [Initial state:], and
    for every [k] from 1 to [steps] the text printed after it in position
    [k] is, under the heading [Step k:], exactly the text that the driver
    prints without [--frames] when it is given [k] steps. *)
Theorem run_cli_frames R w h steps seed :
  rng_contract R ->
  exists out,
    _run_cli R (mkArgs w h steps seed true) = Finished out /\
    (exists text,
       _run_cli R (mkArgs w h 0 seed false) = Finished [text] /\
       nth_error out 0 = Some ("Initial state:" ++ newline ++ text)%string) /\
    (forall k, 1 <= k <= steps ->
       exists text,
         _run_cli R (mkArgs w h k seed false) = Finished [text] /\
         nth_error out (Z.to_nat k) = Some (frame_text k text)).
Proof.
  intros HR.
  destruct (random_shaped R w h (Some seed) HR) as (Hs & Hr).
  destruct (render_Ok _ Hr) as (lines & Hrender & _).
  destruct (frames_loop_finishes (range_from 1 (steps + 1)) _
              [("Initial state:" ++ newline
                ++ String.concat newline lines)%string] Hs Hr)
    as (frames & Hloop & Hlen & Hnth).
  eexists. split; [| split].
  - unfold _run_cli.
    cbn [arg_frames arg_width arg_height arg_seed arg_steps].
    rewrite Hrender. exact Hloop.
  - exists (String.concat newline lines). split; [| reflexivity].
    unfold _run_cli, simulate.
    cbn [arg_frames arg_width arg_height arg_seed arg_steps range for_loop
         Z.to_nat seq map].
    now rewrite Hrender.
  - intros k Hk.
    destruct (Hnth (Z.to_nat (k - 1)) k) as (g' & text & Hn & Ht & Hf).
    { rewrite nth_error_range_from by lia. f_equal. lia. }
    exists text. split.
    + unfold _run_cli.
      cbn [arg_frames arg_width arg_height arg_seed arg_steps].
      rewrite simulate_step_n.
      replace (Z.to_nat k) with (S (Z.to_nat (k - 1))) by lia.
      now rewrite Hn, Ht.
    + replace (Z.to_nat k) with (S (Z.to_nat (k - 1))) by lia.
      exact Hf.
Qed.

Lemma run_cli_frames_witness :
  exists out,
    _run_cli lcg (mkArgs 4 3 2 7 true) = Finished out /\
    exists text,
      _run_cli lcg (mkArgs 4 3 2 7 false) = Finished [text] /\
      nth_error out 2 = Some (frame_text 2 text).
Proof.
  destruct (run_cli_frames lcg 4 3 2 7 lcg_contract) as (out & Hout & _ & H).
  exists out. split; [exact Hout |].
  exact (H 2 ltac:(lia)).
Defined.
